(** * Counterfactual communication protocol (CQZE): a shallow embedding

    This development embeds [counterfactual_simulation.py] (class
    [CounterfactualCommunication]) and proves properties of the gate
    sequence it builds, of the state trajectory it records and of its
    derived constants.

    Modelling conventions.
    - Python [int] is [Z]; [range n] is the list [0; 1; ...; n-1] (empty when
      [n <= 0]); [a // b] is [Z.div] (floor division).
    - Python [float] is idealised as a real number ([R]); [np.pi] is [PI].
      Every statement below about amplitudes and probabilities is therefore
      a statement in exact real arithmetic; the program's doubles follow it
      up to rounding.
    - Exceptions are the second summand of the [result] type. [x / d] with an
      [int] divisor [d] raises [ZeroDivisionError] when [d = 0]. What the
      conversion of a Python int to a double adds, rounding to 53
      significant bits and [OverflowError], is modelled by [int_to_float],
      [float_truediv], [int_truediv] and the constructor [init_double];
      [init] is the same constructor over exact arithmetic, and the two
      agree as long as 16 |M N| < 2^53.
    - A [QuantumCircuit] on one qubit is the list of the instructions
      appended to it, oldest first; [Statevector.from_instruction] runs the
      list on the state |0>.
    - A [dict] of counts is a [gmap string Z]. *)

From Stdlib Require Import ZArith List Reals Lra Lia.
From stdpp Require Import gmap strings.
Import ListNotations.

Local Open Scope Z_scope.

(** ** Exceptions *)

Inductive exn : Type :=
| ZeroDivisionError
| QiskitError
| OverflowError.

Inductive result (A : Type) : Type :=
| Ok (a : A)
| Raise (e : exn).
Arguments Ok {A} a.
Arguments Raise {A} e.

Definition bind {A B : Type} (r : result A) (k : A -> result B) : result B :=
  match r with
  | Ok a => k a
  | Raise e => Raise e
  end.

Notation "'let*' x ':=' r 'in' k" := (bind r (fun x => k))
  (at level 10, x name, r at level 100, k at level 200).

(** [x / d] for a float [x] and an int [d], over exact arithmetic. *)
Definition float_div_int (x : R) (d : Z) : result R :=
  if d =? 0 then Raise ZeroDivisionError else Ok (x / IZR d)%R.

(** ** Python ints as doubles *)

(** The least magnitude that does not fit a double: 2^1024 - 2^970, half a
    unit in the last place above the largest double 2^1024 - 2^971. *)
Definition double_overflow_threshold : Z := 2 ^ 1024 - 2 ^ 970.

(** The double nearest to an int, ties to the even significand: ints below
    2^53 in magnitude are kept, larger ones are rounded to 53 significant
    bits. *)
Definition round_to_53 (n : Z) : Z :=
  let a := Z.abs n in
  if a <? 2 ^ 53 then n
  else
    let e := Z.log2 a - 52 in
    let q := a / 2 ^ e in
    let r := a mod 2 ^ e in
    let half := 2 ^ (e - 1) in
    let q' := if r <? half then q
              else if half <? r then q + 1
              else if Z.even q then q else q + 1 in
    Z.sgn n * (q' * 2 ^ e).

(** [float(n)] for an int [n]: "int too large to convert to float" from the
    threshold on. *)
Definition int_to_float (n : Z) : result R :=
  if double_overflow_threshold <=? Z.abs n then Raise OverflowError
  else Ok (IZR (round_to_53 n)).

(** [x / d] for a float [x] and an int [d]: the int is converted first, then
    the division refuses a zero divisor. The quotient itself is not
    rounded. *)
Definition float_truediv (x : R) (d : Z) : result R :=
  let* y := int_to_float d in
  if d =? 0 then Raise ZeroDivisionError else Ok (x / y)%R.

(** [a / b] for two ints: a zero divisor is refused first, then a quotient
    that rounds beyond the largest double ("integer division result too
    large for a float"). The quotient itself is not rounded. *)
Definition int_truediv (a b : Z) : result R :=
  if b =? 0 then Raise ZeroDivisionError
  else if double_overflow_threshold * Z.abs b <=? Z.abs a then Raise OverflowError
  else Ok (IZR a / IZR b)%R.

(** ** Loops *)

(** [range n] *)
Definition range (n : Z) : list Z := map Z.of_nat (seq 0 (Z.to_nat n)).

(** [for i in range(n): s = body i s] *)
Definition for_range {S : Type} (n : Z) (body : Z -> S -> S) (s : S) : S :=
  fold_left (fun acc i => body i acc) (range n) s.

(** The same loop when the body may raise: the first exception leaves the
    loop. *)
Definition for_range_m {S : Type} (n : Z) (body : Z -> S -> result S) (s : S)
  : result S :=
  fold_left (fun acc i => let* a := acc in body i a) (range n) (Ok s).

(** ** Complex amplitudes *)

Module Cplx.

Record C : Type := mkC { re : R; im : R }.

Definition RtoC (x : R) : C := mkC x 0.
Definition Cadd (a b : C) : C := mkC (re a + re b) (im a + im b).
Definition Cmul (a b : C) : C :=
  mkC (re a * re b - im a * im b) (re a * im b + im a * re b).

(** [abs z] *)
Definition Cabs (z : C) : R := sqrt (re z * re z + im z * im z).

End Cplx.
Import Cplx.

(** ** The class and its constructor *)

Record CounterfactualCommunication : Type := mkCC {
  M : Z;
  N : Z;
  theta_M : R;
  theta_N : R;
  leakage_prob : R
}.

(** [__init__(self, M=4, N=4)], over exact arithmetic. *)
Definition init (m n : Z) : result CounterfactualCommunication :=
  let* tM := float_div_int PI (4 * m) in
  let* tN := float_div_int PI (4 * n) in
  let* q := float_div_int PI (16 * m * n) in
  Ok (mkCC m n tM tN (q ^ 2)%R).

(** [__init__(self, M=4, N=4)] with the int divisors converted to doubles
    as Python does. *)
Definition init_double (m n : Z) : result CounterfactualCommunication :=
  let* tM := float_truediv PI (4 * m) in
  let* tN := float_truediv PI (4 * n) in
  let* q := float_truediv PI (16 * m * n) in
  Ok (mkCC m n tM tN (q ^ 2)%R).

(** ** Circuits and state vectors *)

(** Barrier labels: [f'Outer{cycle+1}'], ['Bob_BLOCKS'], ... The number is
    kept, the formatting is not. *)
Inductive label : Type :=
| Outer (k : Z)
| Inner (k : Z)
| Bob_BLOCKS
| Bob_PASS
| RetInner (k : Z)
| RetOuter (k : Z).

(** The instructions the class appends to a one-qubit circuit:
    [qc.ry(theta, q)], [qc.x(q)], [qc.barrier(label=...)] and
    [qc.measure(q, c)]. *)
Inductive instruction : Type :=
| Ry (theta : R)
| X
| Barrier (l : label)
| Measure.

Definition QuantumCircuit : Type := list instruction.

(** [s.data[0]], [s.data[1]] *)
Record Statevector : Type := mkSV { data0 : C; data1 : C }.

(** The state |0> of a fresh circuit. *)
Definition ket0 : Statevector := mkSV (RtoC 1) (RtoC 0).

(** A 2x2 complex matrix, row by row. *)
Record matrix : Type := mkMat { m00 : C; m01 : C; m10 : C; m11 : C }.

Definition mat_apply (u : matrix) (s : Statevector) : Statevector :=
  mkSV (Cadd (Cmul (m00 u) (data0 s)) (Cmul (m01 u) (data1 s)))
       (Cadd (Cmul (m10 u) (data0 s)) (Cmul (m11 u) (data1 s))).

(** The matrix of [RYGate(theta)]. *)
Definition ry_matrix (theta : R) : matrix :=
  mkMat (RtoC (cos (theta / 2))) (RtoC (- sin (theta / 2)))
        (RtoC (sin (theta / 2))) (RtoC (cos (theta / 2))).

(** The matrix of [XGate()]. *)
Definition x_matrix : matrix :=
  mkMat (RtoC 0) (RtoC 1) (RtoC 1) (RtoC 0).

(** One instruction of [Statevector.evolve]: gates multiply the state by
    their matrix, a barrier does nothing, a measurement is refused. *)
Definition evolve (i : instruction) (s : Statevector) : result Statevector :=
  match i with
  | Ry theta => Ok (mat_apply (ry_matrix theta) s)
  | X => Ok (mat_apply x_matrix s)
  | Barrier _ => Ok s
  | Measure => Raise QiskitError
  end.

(** [Statevector.from_instruction(qc)] *)
Definition from_instruction (qc : QuantumCircuit) : result Statevector :=
  fold_left (fun acc i => let* s := acc in evolve i s) qc (Ok ket0).

(** [abs(s.data[k])**2], as the plots compute it. *)
Definition prob (z : C) : R := (Cabs z ^ 2)%R.
Definition P0 (s : Statevector) : R := prob (data0 s).
Definition P1 (s : Statevector) : R := prob (data1 s).

(** The gates of a circuit, barriers and measurements dropped. *)
Definition is_gate (i : instruction) : bool :=
  match i with
  | Ry _ | X => true
  | Barrier _ | Measure => false
  end.

Definition gates (qc : QuantumCircuit) : list instruction :=
  List.filter is_gate qc.

(** ** [create_circuit] *)

Definition create_circuit (self : CounterfactualCommunication)
    (bob_blocks measure : bool) : QuantumCircuit :=
  let qc : QuantumCircuit := [] in
  (* outer cycle *)
  let qc := for_range (M self) (fun cycle qc =>
      let qc := qc ++ [Ry (2 * theta_M self)] in
      qc ++ [Barrier (Outer (cycle + 1))]) qc in
  (* inner cycle *)
  let qc := for_range (N self) (fun cycle qc =>
      let qc := qc ++ [Ry (2 * theta_N self)] in
      if cycle =? N self / 2 then
        if bob_blocks then
          let qc := qc ++ [X] in
          qc ++ [Barrier Bob_BLOCKS]
        else qc ++ [Barrier Bob_PASS]
      else qc ++ [Barrier (Inner (cycle + 1))]) qc in
  (* return path, inner *)
  let qc := for_range (N self) (fun cycle qc =>
      let qc := qc ++ [Ry (-2 * theta_N self)] in
      qc ++ [Barrier (RetInner (cycle + 1))]) qc in
  (* return path, outer *)
  let qc := for_range (M self) (fun cycle qc =>
      let qc := qc ++ [Ry (-2 * theta_M self)] in
      qc ++ [Barrier (RetOuter (cycle + 1))]) qc in
  if measure then qc ++ [Measure] else qc.

(** ** [get_state_evolution] *)

(** The loop state: the circuit built so far and the recorded states. *)
Definition evo_state : Type := (QuantumCircuit * list Statevector)%type.

(** [states.append(Statevector.from_instruction(qc))] *)
Definition record_state (qc : QuantumCircuit) (states : list Statevector)
  : result evo_state :=
  let* sv := from_instruction qc in
  Ok (qc, states ++ [sv]).

(** The body of [get_state_evolution] up to its [return]: the final circuit
    together with the list that is returned. *)
Definition get_state_evolution_run (self : CounterfactualCommunication)
    (bob_blocks : bool) : result evo_state :=
  let* st := record_state [] [] in
  (* outer cycle *)
  let* st := for_range_m (M self) (fun cycle st =>
      let qc := fst st ++ [Ry (2 * theta_M self)] in
      record_state qc (snd st)) st in
  (* inner cycle (forward) *)
  let* st := for_range_m (N self) (fun cycle st =>
      let qc := fst st ++ [Ry (2 * theta_N self)] in
      let qc := if (cycle =? N self / 2) && bob_blocks then qc ++ [X] else qc in
      record_state qc (snd st)) st in
  (* return path, inner *)
  let* st := for_range_m (N self) (fun cycle st =>
      let qc := fst st ++ [Ry (-2 * theta_N self)] in
      record_state qc (snd st)) st in
  (* return path, outer *)
  let* st := for_range_m (M self) (fun cycle st =>
      let qc := fst st ++ [Ry (-2 * theta_M self)] in
      record_state qc (snd st)) st in
  Ok st.

Definition get_state_evolution (self : CounterfactualCommunication)
    (bob_blocks : bool) : result (list Statevector) :=
  let* st := get_state_evolution_run self bob_blocks in
  Ok (snd st).

(** ** [analyze_results] *)

Inductive detector : Type :=
| D3_H      (* the line for |H> = |0> *)
| D12_V.    (* the line for |V> = |1> *)

(** One printed line: which detector and the count. The line also shows
    the percentage [100*count/shots] through the [.1f] format; computing it
    can raise, which is modelled, its digits are not. The output stream is
    taken to accept the text. The limit that recent interpreters put on the
    number of digits of a printed int (4300 by default) is not modelled
    either: the statements below are for counts under that limit. *)
Record printed : Type := mkLine { det : detector; count : Z }.

(** Counts whose decimal form has at most 4300 digits. *)
Definition printable (c : Z) : Prop := Z.abs c < 10 ^ 4300.

(** [counts.get(key, 0)] *)
Definition dict_get (counts : gmap string Z) (key : string) (dflt : Z) : Z :=
  match counts !! key with
  | Some v => v
  | None => dflt
  end.

(** [analyze_results(self, counts, shots=1000)]: the lines printed and the
    returned pair. *)
Definition analyze_results (counts : gmap string Z) (shots : Z)
  : result (list printed * (Z * Z)) :=
  let h_count := dict_get counts "0" 0 in
  let v_count := dict_get counts "1" 0 in
  let* _ := int_truediv (100 * h_count) shots in
  let out := [mkLine D3_H h_count] in
  let* _ := int_truediv (100 * v_count) shots in
  let out := out ++ [mkLine D12_V v_count] in
  Ok (out, (h_count, v_count)).

Definition default_shots : Z := 1000.

(** ** Auxiliary definitions for the statements *)

(** What one iteration of the inner forward loop contributes to the gate
    list: the rotation, followed by the flip at the midpoint when Bob
    blocks. *)
Definition inner_step (theta : R) (mid : Z) (bob_blocks : bool) (cycle : Z)
  : list instruction :=
  Ry theta :: (if (cycle =? mid) && bob_blocks then [X] else []).

(** The gate sequence as the specification words it: [M] outer rotations,
    [N] inner rotations with the flip right after the one of index
    [N div 2] when Bob blocks, [N] inner return rotations, [M] outer return
    rotations. *)
Definition gate_sequence_spec (m n : Z) (tM tN : R) (bob_blocks : bool)
  : list instruction :=
  repeat (Ry (2 * tM)) (Z.to_nat m)
  ++ (repeat (Ry (2 * tN)) (Z.to_nat (n / 2) + 1)
      ++ (if bob_blocks then [X] else [])
      ++ repeat (Ry (2 * tN)) (Z.to_nat n - (Z.to_nat (n / 2) + 1)))
  ++ repeat (Ry (-2 * tN)) (Z.to_nat n)
  ++ repeat (Ry (-2 * tM)) (Z.to_nat m).

(** Is the instruction the flip [qc.x]? *)
Definition is_flip (i : instruction) : bool :=
  match i with
  | X => true
  | _ => false
  end.

(** |amp0|^2 + |amp1|^2 = 1 *)
Definition normalized (s : Statevector) : Prop := (P0 s + P1 s = 1)%R.

(** The last entry of a trajectory, [states[-1]]. The default is for the
    empty list only, which [get_state_evolution] never returns: its list
    starts with the initial state (lemma [trajectory_last] below). *)
Definition final (states : list Statevector) : Statevector :=
  List.last states ket0.

(** Instructions [Statevector.evolve] accepts. *)
Definition unitary (i : instruction) : bool :=
  match i with
  | Measure => false
  | _ => true
  end.

(** [from_instruction] continued from a given state. *)
Definition evolve_all (gs : list instruction) (r : result Statevector)
  : result Statevector :=
  fold_left (fun acc i => let* s := acc in evolve i s) gs r.

(** What holds of the loop state between two iterations: every recorded
    state is normalized, and the last one is the state of the circuit built
    so far. *)
Definition recorded (st : evo_state) : Prop :=
  Forall normalized (snd st)
  /\ exists s, from_instruction (fst st) = Ok s
               /\ normalized s /\ final (snd st) = s.

(** The circuit [get_state_evolution] ends with. *)
Definition evolution_circuit (self : CounterfactualCommunication)
    (bob_blocks : bool) : QuantumCircuit :=
  flat_map (fun _ => [Ry (2 * theta_M self)]) (range (M self))
  ++ flat_map (inner_step (2 * theta_N self) (N self / 2) bob_blocks)
              (range (N self))
  ++ flat_map (fun _ => [Ry (-2 * theta_N self)]) (range (N self))
  ++ flat_map (fun _ => [Ry (-2 * theta_M self)]) (range (M self)).

(** The real state at angle [phi]: amplitudes [cos phi] and [sin phi]. *)
Definition rstate (phi : R) : Statevector :=
  mkSV (RtoC (cos phi)) (RtoC (sin phi)).

(** The angle after a list of instructions: [Ry theta] adds [theta/2], the
    flip mirrors the angle at [PI/4]. *)
Fixpoint angle_after (gs : list instruction) (phi : R) : R :=
  match gs with
  | [] => phi
  | Ry theta :: gs' => angle_after gs' (phi + theta / 2)
  | X :: gs' => angle_after gs' (PI / 2 - phi)
  | _ :: gs' => angle_after gs' phi
  end.


(** ** [run_simulation] and the plotted series *)

Section Simulation.

(** [AerSimulator().run(qc, shots=shots).result().get_counts()]: the sampled
    counts, or the exception the simulator raises. The sampler is not part
    of the class; it is a parameter here. *)
Variable get_counts : QuantumCircuit -> Z -> result (gmap string Z).

(** [run_simulation(self, bob_blocks=False, shots=1000)] *)
Definition run_simulation (self : CounterfactualCommunication)
    (bob_blocks : bool) (shots : Z)
  : result (QuantumCircuit * gmap string Z * Statevector) :=
  let qc := create_circuit self bob_blocks true in
  let* counts := get_counts qc shots in
  let qc_no_measure := create_circuit self bob_blocks false in
  let* statevector := from_instruction qc_no_measure in
  Ok (qc, counts, statevector).

End Simulation.

(** [[abs(s.data[0])**2 for s in states]] and
    [[abs(s.data[1])**2 for s in states]] of [create_visualizations]. *)
Definition probs_H (states : list Statevector) : list R := map P0 states.
Definition probs_V (states : list Statevector) : list R := map P1 states.

(** [np.arange(len(states))] *)
Definition steps_axis (states : list Statevector) : list Z :=
  range (Z.of_nat (length states)).

(** ** Further definitions for the statements *)

(** The instructions each loop iteration of [get_state_evolution] appends,
    iteration by iteration. *)
Definition evolution_steps (self : CounterfactualCommunication)
    (bob_blocks : bool) : list (list instruction) :=
  map (fun _ => [Ry (2 * theta_M self)]) (range (M self))
  ++ map (inner_step (2 * theta_N self) (N self / 2) bob_blocks)
         (range (N self))
  ++ map (fun _ => [Ry (-2 * theta_N self)]) (range (N self))
  ++ map (fun _ => [Ry (-2 * theta_M self)]) (range (M self)).

(** The angles reached after each group of instructions, starting from
    [phi]. *)
Fixpoint angles_from (steps : list (list instruction)) (phi : R) : list R :=
  match steps with
  | [] => []
  | gs :: rest => angle_after gs phi :: angles_from rest (angle_after gs phi)
  end.

(** The state with the two amplitudes exchanged. *)
Definition swap_amplitudes (s : Statevector) : Statevector :=
  mkSV (data1 s) (data0 s).

(** Groups of rotations that go out and come back: every rotation by
    [2 theta] is undone, in reverse order, by a rotation by [-2 theta]. *)
Inductive there_and_back : list (list instruction) -> Prop :=
| tab_nil : there_and_back []
| tab_step (theta : R) (steps : list (list instruction)) :
    there_and_back steps ->
    there_and_back ([Ry (2 * theta)] :: steps ++ [[Ry (-2 * theta)]]).

(** The angle (N div 2 + 1) PI / (2 N). *)
Definition midpoint_angle (n : Z) : R :=
  (IZR (n / 2 + 1) * PI / (2 * IZR n))%R.

(** The barrier labels of a circuit, in order. *)
Definition labels (qc : QuantumCircuit) : list label :=
  flat_map (fun i => match i with Barrier l => [l] | _ => [] end) qc.

(** The label [create_circuit] gives the barrier of inner forward iteration
    [cycle]: Bob's label at the midpoint, [f'Inner{cycle+1}'] elsewhere. *)
Definition inner_label (mid : Z) (bob_blocks : bool) (cycle : Z) : label :=
  if cycle =? mid then (if bob_blocks then Bob_BLOCKS else Bob_PASS)
  else Inner (cycle + 1).

(** * Properties *)

(** ** Loop rules *)

Section LoopRules.
Context {S : Type}.

Lemma range_snoc (k : nat) :
  map Z.of_nat (seq 0 (Datatypes.S k)) = map Z.of_nat (seq 0 k) ++ [Z.of_nat k].
Proof. rewrite List.seq_S, List.map_app. reflexivity. Qed.

(** An invariant indexed by the number of iterations done. *)
Lemma for_range_inv (P : Z -> S -> Prop) (n : Z) (body : Z -> S -> S) (s0 : S) :
  P 0 s0 ->
  (forall k s, 0 <= k < n -> P k s -> P (k + 1) (body k s)) ->
  P (Z.max 0 n) (for_range n body s0).
Proof.
  intros H0 Hstep. unfold for_range, range.
  assert (Hgen : forall m : nat, (m <= Z.to_nat n)%nat ->
            P (Z.of_nat m)
              (fold_left (fun acc i => body i acc) (map Z.of_nat (seq 0 m)) s0)).
  { induction m as [|m IH]; intros Hm.
    - exact H0.
    - rewrite range_snoc, fold_left_app. simpl.
      replace (Z.of_nat (Datatypes.S m)) with (Z.of_nat m + 1) by lia.
      apply Hstep; [lia | apply IH; lia]. }
  replace (Z.max 0 n) with (Z.of_nat (Z.to_nat n)) by lia.
  apply Hgen. lia.
Qed.

(** The same for a body that may raise: if every iteration started in the
    invariant returns, so does the loop. *)
Lemma for_range_m_inv (P : Z -> S -> Prop) (n : Z) (body : Z -> S -> result S)
    (s0 : S) :
  P 0 s0 ->
  (forall k s, 0 <= k < n -> P k s -> exists s', body k s = Ok s' /\ P (k + 1) s') ->
  exists s', for_range_m n body s0 = Ok s' /\ P (Z.max 0 n) s'.
Proof.
  intros H0 Hstep. unfold for_range_m, range.
  assert (Hgen : forall m : nat, (m <= Z.to_nat n)%nat ->
            exists s',
              fold_left (fun acc i => let* a := acc in body i a)
                        (map Z.of_nat (seq 0 m)) (Ok s0) = Ok s'
              /\ P (Z.of_nat m) s').
  { induction m as [|m IH]; intros Hm.
    - exists s0. split; [reflexivity | exact H0].
    - destruct IH as (s & Hs & HP); [lia|].
      destruct (Hstep (Z.of_nat m) s) as (s' & Hb & HP'); [lia | exact HP |].
      exists s'. rewrite range_snoc, fold_left_app, Hs. simpl.
      split; [exact Hb|].
      replace (Z.of_nat (Datatypes.S m)) with (Z.of_nat m + 1) by lia.
      exact HP'. }
  replace (Z.max 0 n) with (Z.of_nat (Z.to_nat n)) by lia.
  apply Hgen. lia.
Qed.

End LoopRules.

(** ** Lists of gates *)

Lemma range_succ (k : Z) : 0 <= k -> range (k + 1) = range k ++ [k].
Proof.
  intros Hk. unfold range.
  replace (Z.to_nat (k + 1)) with (Datatypes.S (Z.to_nat k)) by lia.
  rewrite range_snoc. f_equal. f_equal. lia.
Qed.

Lemma gates_app (a b : QuantumCircuit) : gates (a ++ b) = gates a ++ gates b.
Proof. unfold gates. apply List.filter_app. Qed.

Lemma repeat_snoc {A : Type} (a : A) (k : nat) :
  repeat a (Datatypes.S k) = repeat a k ++ [a].
Proof. simpl. apply List.repeat_cons. Qed.

Lemma gates_gate (g : instruction) : is_gate g = true -> gates [g] = [g].
Proof. intros Hg. unfold gates. simpl. rewrite Hg. reflexivity. Qed.

Lemma gates_barrier (l : label) : gates [Barrier l] = [].
Proof. reflexivity. Qed.

(** A loop that appends one gate and one barrier per iteration appends
    [n] copies of the gate to the gate list. *)
Lemma gates_rotation_loop (n : Z) (g : instruction) (lbl : Z -> label)
    (qc0 : QuantumCircuit) :
  is_gate g = true ->
  gates (for_range n (fun cycle qc =>
           let qc := qc ++ [g] in qc ++ [Barrier (lbl cycle)]) qc0)
  = gates qc0 ++ repeat g (Z.to_nat n).
Proof.
  intros Hg.
  replace (Z.to_nat n) with (Z.to_nat (Z.max 0 n)) by lia.
  apply (for_range_inv
           (fun k qc => gates qc = gates qc0 ++ repeat g (Z.to_nat k))).
  - simpl. rewrite List.app_nil_r. reflexivity.
  - intros k qc Hk IH. cbv zeta.
    rewrite !gates_app, IH, (gates_gate g Hg), gates_barrier, List.app_nil_r.
    replace (Z.to_nat (k + 1)) with (Datatypes.S (Z.to_nat k)) by lia.
    rewrite repeat_snoc, List.app_assoc. reflexivity.
Qed.

Lemma flat_map_inner_step (theta : R) (mid : nat) (bob_blocks : bool) (k : nat) :
  flat_map (inner_step theta (Z.of_nat mid) bob_blocks) (map Z.of_nat (seq 0 k))
  = repeat (Ry theta) (Nat.min k (mid + 1))
    ++ (if bob_blocks && (mid <? k)%nat then [X] else [])
    ++ repeat (Ry theta) (k - (mid + 1)).
Proof.
  induction k as [|k IH].
  - simpl. destruct bob_blocks; reflexivity.
  - rewrite range_snoc, List.flat_map_app, IH. simpl flat_map.
    rewrite List.app_nil_r. unfold inner_step.
    destruct (Nat.lt_trichotomy k mid) as [Hlt | [Heq | Hgt]].
    + replace (Z.of_nat k =? Z.of_nat mid) with false by (symmetry; lia).
      replace (mid <? k)%nat with false by (symmetry; apply Nat.ltb_ge; lia).
      replace (mid <? Datatypes.S k)%nat with false
        by (symmetry; apply Nat.ltb_ge; lia).
      replace (Nat.min k (mid + 1)) with k by lia.
      replace (Nat.min (Datatypes.S k) (mid + 1)) with (Datatypes.S k) by lia.
      replace (k - (mid + 1))%nat with 0%nat by lia.
      replace (Datatypes.S k - (mid + 1))%nat with 0%nat by lia.
      rewrite !Bool.andb_false_r, (repeat_snoc _ k), !List.app_nil_r.
      reflexivity.
    + subst k.
      replace (Z.of_nat mid =? Z.of_nat mid) with true by (symmetry; lia).
      replace (mid <? mid)%nat with false by (symmetry; apply Nat.ltb_ge; lia).
      replace (mid <? Datatypes.S mid)%nat with true
        by (symmetry; apply Nat.ltb_lt; lia).
      replace (Nat.min mid (mid + 1)) with mid by lia.
      replace (Nat.min (Datatypes.S mid) (mid + 1)) with (Datatypes.S mid) by lia.
      replace (mid - (mid + 1))%nat with 0%nat by lia.
      replace (Datatypes.S mid - (mid + 1))%nat with 0%nat by lia.
      rewrite Bool.andb_false_r, Bool.andb_true_r, (repeat_snoc _ mid).
      rewrite !List.app_nil_r, <- List.app_assoc.
      destruct bob_blocks; reflexivity.
    + replace (Z.of_nat k =? Z.of_nat mid) with false by (symmetry; lia).
      replace (mid <? k)%nat with true by (symmetry; apply Nat.ltb_lt; lia).
      replace (mid <? Datatypes.S k)%nat with true
        by (symmetry; apply Nat.ltb_lt; lia).
      replace (Nat.min k (mid + 1)) with (mid + 1)%nat by lia.
      replace (Nat.min (Datatypes.S k) (mid + 1)) with (mid + 1)%nat by lia.
      replace (Datatypes.S k - (mid + 1))%nat
        with (Datatypes.S (k - (mid + 1))) by lia.
      rewrite (repeat_snoc _ (k - (mid + 1))).
      cbn [andb]. rewrite <- !List.app_assoc. reflexivity.
Qed.

Lemma gates_inner_loop (self : CounterfactualCommunication) (bob_blocks : bool)
    (qc0 : QuantumCircuit) :
  gates (for_range (N self) (fun cycle qc =>
      let qc := qc ++ [Ry (2 * theta_N self)] in
      if cycle =? N self / 2 then
        if bob_blocks then
          let qc := qc ++ [X] in
          qc ++ [Barrier Bob_BLOCKS]
        else qc ++ [Barrier Bob_PASS]
      else qc ++ [Barrier (Inner (cycle + 1))]) qc0)
  = gates qc0
    ++ flat_map (inner_step (2 * theta_N self) (N self / 2) bob_blocks)
                (range (N self)).
Proof.
  replace (range (N self)) with (range (Z.max 0 (N self)))
    by (unfold range; f_equal; f_equal; lia).
  apply (for_range_inv
           (fun k qc => gates qc = gates qc0
              ++ flat_map (inner_step (2 * theta_N self) (N self / 2) bob_blocks)
                          (range k))).
  - simpl. rewrite List.app_nil_r. reflexivity.
  - intros k qc Hk IH. cbv zeta.
    rewrite range_succ, List.flat_map_app by lia. simpl flat_map.
    rewrite List.app_nil_r, List.app_assoc, <- IH. unfold inner_step.
    destruct (k =? N self / 2); destruct bob_blocks; cbn [andb];
      rewrite !gates_app; cbn [gates List.filter is_gate];
      rewrite ?List.app_nil_r, <- ?List.app_assoc; reflexivity.
Qed.

Lemma inner_forward_explicit (theta : R) (n : Z) (bob_blocks : bool) :
  1 <= n ->
  flat_map (inner_step theta (n / 2) bob_blocks) (range n)
  = repeat (Ry theta) (Z.to_nat (n / 2) + 1)
    ++ (if bob_blocks then [X] else [])
    ++ repeat (Ry theta) (Z.to_nat n - (Z.to_nat (n / 2) + 1)).
Proof.
  intros Hn.
  assert (Hmid : 0 <= n / 2 < n).
  { split; [apply Z.div_pos; lia | apply Z.div_lt_upper_bound; lia]. }
  unfold range.
  replace (n / 2) with (Z.of_nat (Z.to_nat (n / 2))) at 1 by lia.
  rewrite flat_map_inner_step.
  replace (Nat.min (Z.to_nat n) (Z.to_nat (n / 2) + 1))
    with (Z.to_nat (n / 2) + 1)%nat by lia.
  replace (Z.to_nat (n / 2) <? Z.to_nat n)%nat with true
    by (symmetry; apply Nat.ltb_lt; lia).
  rewrite Bool.andb_true_r. reflexivity.
Qed.

Lemma gates_create_circuit (self : CounterfactualCommunication)
    (bob_blocks measure : bool) :
  gates (create_circuit self bob_blocks measure)
  = repeat (Ry (2 * theta_M self)) (Z.to_nat (M self))
    ++ flat_map (inner_step (2 * theta_N self) (N self / 2) bob_blocks)
                (range (N self))
    ++ repeat (Ry (-2 * theta_N self)) (Z.to_nat (N self))
    ++ repeat (Ry (-2 * theta_M self)) (Z.to_nat (M self)).
Proof.
  unfold create_circuit. cbv zeta.
  assert (Hm : forall qc, gates (if measure then qc ++ [Measure] else qc) = gates qc).
  { intros qc. destruct measure; [|reflexivity].
    rewrite gates_app. apply List.app_nil_r. }
  rewrite Hm.
  rewrite (gates_rotation_loop (M self) (Ry (-2 * theta_M self))
             (fun cycle => RetOuter (cycle + 1))) by reflexivity.
  rewrite (gates_rotation_loop (N self) (Ry (-2 * theta_N self))
             (fun cycle => RetInner (cycle + 1))) by reflexivity.
  rewrite gates_inner_loop.
  rewrite (gates_rotation_loop (M self) (Ry (2 * theta_M self))
             (fun cycle => Outer (cycle + 1))) by reflexivity.
  simpl (gates []). simpl app at 1.
  rewrite <- !List.app_assoc. reflexivity.
Qed.

Lemma init_ok (m n : Z) :
  m <> 0 -> n <> 0 ->
  init m n = Ok (mkCC m n (PI / IZR (4 * m)) (PI / IZR (4 * n))
                      ((PI / IZR (16 * m * n)) ^ 2)%R).
Proof.
  intros Hm Hn. unfold init, float_div_int.
  replace (4 * m =? 0) with false by (symmetry; lia).
  replace (4 * n =? 0) with false by (symmetry; lia).
  replace (16 * m * n =? 0) with false by (symmetry; nia).
  reflexivity.
Qed.

Lemma no_flip_in_rotations (theta : R) (k : nat) :
  List.filter is_flip (repeat (Ry theta) k) = [].
Proof. induction k as [|k IH]; [reflexivity | exact IH]. Qed.

(** C3: for M >= 1 and N >= 1 the object is constructed and the gates of the
    circuit it builds are M rotations of +2 theta_M, then N rotations of
    +2 theta_N with one flip right after the rotation of index N div 2 when
    Bob blocks (no flip when he passes), then N rotations of -2 theta_N, then
    M rotations of -2 theta_M; the number of flips is 1 when Bob blocks and
    0 when he passes. *)
Theorem C3_gate_sequence (m n : Z) (bob_blocks measure : bool) :
  1 <= m -> 1 <= n ->
  exists self,
    init m n = Ok self
    /\ theta_M self = (PI / IZR (4 * m))%R
    /\ theta_N self = (PI / IZR (4 * n))%R
    /\ gates (create_circuit self bob_blocks measure)
       = gate_sequence_spec m n (theta_M self) (theta_N self) bob_blocks
    /\ length (List.filter is_flip (gates (create_circuit self bob_blocks measure)))
       = (if bob_blocks then 1%nat else 0%nat).
Proof.
  intros Hm Hn. eexists. split; [apply init_ok; lia|].
  split; [reflexivity|]. split; [reflexivity|].
  rewrite gates_create_circuit. cbn [M N theta_M theta_N].
  rewrite inner_forward_explicit by lia.
  split; [reflexivity|].
  rewrite !List.filter_app, !no_flip_in_rotations.
  destruct bob_blocks; reflexivity.
Qed.

Lemma C3_gate_sequence_witness :
  exists self,
    init 4 5 = Ok self
    /\ theta_M self = (PI / IZR (4 * 4))%R
    /\ theta_N self = (PI / IZR (4 * 5))%R
    /\ gates (create_circuit self true true)
       = gate_sequence_spec 4 5 (theta_M self) (theta_N self) true
    /\ length (List.filter is_flip (gates (create_circuit self true true)))
       = 1%nat.
Proof. apply (C3_gate_sequence 4 5 true true); lia. Defined.

(** ** Amplitudes and probabilities *)

Lemma prob_sqr (z : C) : prob z = (re z * re z + im z * im z)%R.
Proof.
  unfold prob, Cabs. apply pow2_sqrt. nra.
Qed.

Lemma normalized_ket0 : normalized ket0.
Proof.
  unfold normalized, P0, P1. rewrite !prob_sqr. simpl. lra.
Qed.

Lemma normalized_ry (theta : R) (s : Statevector) :
  normalized s -> normalized (mat_apply (ry_matrix theta) s).
Proof.
  unfold normalized, P0, P1. rewrite !prob_sqr.
  destruct s as [[x0 y0] [x1 y1]]. simpl. intros Hs.
  pose proof (sin2_cos2 (theta / 2)) as Hsc. unfold Rsqr in Hsc.
  set (c := cos (theta / 2)) in *. set (sn := sin (theta / 2)) in *.
  clearbody c sn.
  rewrite <- (Rmult_1_l 1), <- Hsc at 1. rewrite <- Hs. ring.
Qed.

Lemma normalized_x (s : Statevector) :
  normalized s -> normalized (mat_apply x_matrix s).
Proof.
  unfold normalized, P0, P1. rewrite !prob_sqr.
  destruct s as [[x0 y0] [x1 y1]]. simpl. intros Hs.
  etransitivity; [|exact Hs]. ring.
Qed.

Lemma from_instruction_app (qc gs : QuantumCircuit) :
  from_instruction (qc ++ gs) = evolve_all gs (from_instruction qc).
Proof. unfold from_instruction, evolve_all. apply fold_left_app. Qed.

Lemma evolve_all_normalized (gs : list instruction) :
  forallb unitary gs = true ->
  forall s, normalized s ->
  exists s', evolve_all gs (Ok s) = Ok s' /\ normalized s'.
Proof.
  induction gs as [|g gs IH]; intros Hu s Hs.
  - exists s. split; [reflexivity | exact Hs].
  - simpl in Hu. apply andb_prop in Hu. destruct Hu as [Hg Hgs].
    destruct g; try discriminate; simpl.
    + apply IH; [exact Hgs | apply normalized_ry; exact Hs].
    + apply IH; [exact Hgs | apply normalized_x; exact Hs].
    + apply IH; [exact Hgs | exact Hs].
Qed.

(** ** The trajectory loops *)

Lemma final_snoc (states : list Statevector) (s : Statevector) :
  final (states ++ [s]) = s.
Proof. unfold final. apply List.last_last. Qed.

Lemma record_state_ok (qc gs : QuantumCircuit) (states : list Statevector) :
  forallb unitary gs = true ->
  recorded (qc, states) ->
  exists st', record_state (qc ++ gs) states = Ok st'
              /\ fst st' = qc ++ gs
              /\ length (snd st') = Datatypes.S (length states)
              /\ recorded st'.
Proof.
  intros Hu [Hall (s & Hs & Hn & _)]. simpl in *.
  destruct (evolve_all_normalized gs Hu s Hn) as (s' & Hs' & Hn').
  exists (qc ++ gs, states ++ [s']). unfold record_state.
  rewrite from_instruction_app, Hs, Hs'. simpl.
  split; [reflexivity|]. split; [reflexivity|].
  split; [rewrite List.length_app; simpl; lia|].
  split; simpl.
  - apply Forall_app. split; [exact Hall | repeat constructor; exact Hn'].
  - exists s'. rewrite from_instruction_app, Hs.
    split; [exact Hs'|]. split; [exact Hn' | apply final_snoc].
Qed.

(** A loop whose iteration [cycle] appends the instructions [step cycle] and
    records one state. *)
Lemma evolution_loop (n : Z) (body : Z -> evo_state -> result evo_state)
    (step : Z -> list instruction) (st0 : evo_state) :
  (forall k st, body k st = record_state (fst st ++ step k) (snd st)) ->
  (forall k, forallb unitary (step k) = true) ->
  recorded st0 ->
  exists st', for_range_m n body st0 = Ok st'
              /\ fst st' = fst st0 ++ flat_map step (range n)
              /\ length (snd st') = (length (snd st0) + Z.to_nat n)%nat
              /\ recorded st'.
Proof.
  intros Hbody Hu H0.
  destruct (for_range_m_inv
              (fun k st => fst st = fst st0 ++ flat_map step (range k)
                           /\ length (snd st) = (length (snd st0) + Z.to_nat k)%nat
                           /\ recorded st)
              n body st0) as (st' & Hrun & Hq & Hl & Hr).
  - simpl. rewrite List.app_nil_r. split; [reflexivity|].
    split; [unfold evo_state, QuantumCircuit in *; lia | exact H0].
  - intros k [qc states] Hk (Hq & Hl & Hr). simpl in Hq, Hl.
    destruct (record_state_ok qc (step k) states (Hu k) Hr)
      as (st' & Hst' & Hq' & Hl' & Hr').
    exists st'. rewrite Hbody. simpl. split; [exact Hst'|].
    rewrite range_succ, List.flat_map_app by lia. simpl flat_map.
    rewrite List.app_nil_r, List.app_assoc, <- Hq.
    split; [exact Hq'|].
    split; [unfold evo_state, QuantumCircuit in *; lia | exact Hr'].
  - exists st'. split; [exact Hrun|].
    replace (range n) with (range (Z.max 0 n))
      by (unfold range; f_equal; f_equal; lia).
    split; [exact Hq|].
    split; [unfold evo_state, QuantumCircuit in *; lia | exact Hr].
Qed.

(** Run the first loop of the goal with [evolution_loop], naming the state
    it returns and the three facts about it. *)
Ltac loop_step step st Hq Hl Hr :=
  match goal with
  | |- context [@for_range_m ?S ?n ?body ?st0] =>
      let Hrun := fresh "Hrun" in
      destruct (evolution_loop n body step st0) as (st & Hrun & Hq & Hl & Hr);
      [ | | | change (@for_range_m S n body st0 = Ok st) in Hrun;
              rewrite Hrun; cbn [bind] ]
  end.

(** [get_state_evolution] returns; it returns one state more than it ran
    loop iterations, all normalized, and its last state is the state of the
    final circuit. *)
Lemma get_state_evolution_run_ok (self : CounterfactualCommunication)
    (bob_blocks : bool) :
  exists st, get_state_evolution_run self bob_blocks = Ok st
             /\ fst st = evolution_circuit self bob_blocks
             /\ length (snd st)
                = (1 + Z.to_nat (M self) + Z.to_nat (N self)
                   + Z.to_nat (N self) + Z.to_nat (M self))%nat
             /\ recorded st.
Proof.
  unfold get_state_evolution_run.
  assert (H0 : recorded ([], [ket0])).
  { split; [repeat constructor; apply normalized_ket0|].
    exists ket0. split; [reflexivity|].
    split; [apply normalized_ket0 | reflexivity]. }
  change (record_state [] []) with (Ok (([], [ket0]) : evo_state)).
  cbn [bind].
  loop_step (fun _ : Z => [Ry (2 * theta_M self)]) st1 Hq1 Hl1 Hr1;
    [intros; reflexivity | intros; reflexivity | exact H0 |].
  loop_step (inner_step (2 * theta_N self) (N self / 2) bob_blocks)
            st2 Hq2 Hl2 Hr2;
    [ intros k st; unfold inner_step; cbv zeta;
      destruct ((k =? N self / 2) && bob_blocks);
      rewrite <- ?List.app_assoc; reflexivity
    | intros k; unfold inner_step;
      destruct ((k =? N self / 2) && bob_blocks); reflexivity
    | exact Hr1 |].
  loop_step (fun _ : Z => [Ry (-2 * theta_N self)]) st3 Hq3 Hl3 Hr3;
    [intros; reflexivity | intros; reflexivity | exact Hr2 |].
  loop_step (fun _ : Z => [Ry (-2 * theta_M self)]) st4 Hq4 Hl4 Hr4;
    [intros; reflexivity | intros; reflexivity | exact Hr3 |].
  exists st4. split; [reflexivity|]. split; [|split; [|exact Hr4]].
  - rewrite Hq4, Hq3, Hq2, Hq1. unfold evolution_circuit. simpl fst.
    rewrite <- !List.app_assoc. reflexivity.
  - rewrite Hl4, Hl3, Hl2, Hl1. simpl. lia.
Qed.

(** ** Real states and rotation angles *)

Lemma rstate_0 : rstate 0 = ket0.
Proof. unfold rstate, ket0. rewrite cos_0, sin_0. reflexivity. Qed.

Lemma ry_rstate (theta phi : R) :
  mat_apply (ry_matrix theta) (rstate phi) = rstate (phi + theta / 2).
Proof.
  unfold mat_apply, ry_matrix, rstate, Cadd, Cmul, RtoC. simpl.
  rewrite cos_plus, sin_plus. f_equal; f_equal; ring.
Qed.

Lemma x_rstate (phi : R) :
  mat_apply x_matrix (rstate phi) = rstate (PI / 2 - phi).
Proof.
  unfold mat_apply, x_matrix, rstate, Cadd, Cmul, RtoC. simpl.
  rewrite cos_shift, sin_shift. f_equal; f_equal; ring.
Qed.

Lemma evolve_all_rstate (gs : list instruction) :
  forallb unitary gs = true ->
  forall phi, evolve_all gs (Ok (rstate phi)) = Ok (rstate (angle_after gs phi)).
Proof.
  induction gs as [|g gs IH]; intros Hu phi; [reflexivity|].
  simpl in Hu. apply andb_prop in Hu. destruct Hu as [Hg Hgs].
  destruct g; try discriminate; simpl.
  - rewrite ry_rstate. apply (IH Hgs).
  - rewrite x_rstate. apply (IH Hgs).
  - apply (IH Hgs).
Qed.

Lemma angle_after_app (a b : list instruction) (phi : R) :
  angle_after (a ++ b) phi = angle_after b (angle_after a phi).
Proof.
  revert phi. induction a as [|g a IH]; intros phi; [reflexivity|].
  destruct g; simpl; apply IH.
Qed.

Lemma angle_after_repeat (theta : R) (k : nat) (phi : R) :
  angle_after (repeat (Ry theta) k) phi = (phi + INR k * (theta / 2))%R.
Proof.
  revert phi. induction k as [|k IH]; intros phi.
  - simpl. ring.
  - rewrite S_INR. simpl. rewrite IH. ring.
Qed.

Lemma flat_map_const (g : instruction) (n : Z) :
  flat_map (fun _ : Z => [g]) (range n) = repeat g (Z.to_nat n).
Proof.
  unfold range. induction (Z.to_nat n) as [|k IH]; [reflexivity|].
  rewrite range_snoc, List.flat_map_app, IH, repeat_snoc. reflexivity.
Qed.

Lemma inner_step_pass (theta : R) (mid : Z) (l : list Z) :
  flat_map (inner_step theta mid false) l = flat_map (fun _ : Z => [Ry theta]) l.
Proof.
  induction l as [|i l IH]; [reflexivity|].
  simpl. rewrite IH, Bool.andb_false_r. reflexivity.
Qed.

Lemma evolution_circuit_gates (self : CounterfactualCommunication)
    (bob_blocks measure : bool) :
  gates (create_circuit self bob_blocks measure)
  = evolution_circuit self bob_blocks.
Proof.
  rewrite gates_create_circuit. unfold evolution_circuit.
  rewrite !flat_map_const. reflexivity.
Qed.

Lemma unitary_gates (qc : QuantumCircuit) : forallb unitary (gates qc) = true.
Proof.
  induction qc as [|i qc IH]; [reflexivity|].
  destruct i; simpl; auto.
Qed.

(** The last state [get_state_evolution] records is the real state at the
    angle its circuit reaches from 0. *)
Lemma get_state_evolution_final (self : CounterfactualCommunication)
    (bob_blocks : bool) :
  exists states,
    get_state_evolution self bob_blocks = Ok states
    /\ length states
       = (1 + Z.to_nat (M self) + Z.to_nat (N self)
          + Z.to_nat (N self) + Z.to_nat (M self))%nat
    /\ Forall normalized states
    /\ final states
       = rstate (angle_after (evolution_circuit self bob_blocks) 0).
Proof.
  destruct (get_state_evolution_run_ok self bob_blocks)
    as (st & Hrun & Hq & Hl & Hall & s & Hs & Hn & Hfin).
  exists (snd st). unfold get_state_evolution. rewrite Hrun. simpl.
  split; [reflexivity|]. split; [exact Hl|]. split; [exact Hall|].
  rewrite Hfin. rewrite Hq in Hs.
  change (evolution_circuit self bob_blocks)
    with ([] ++ evolution_circuit self bob_blocks) in Hs.
  rewrite from_instruction_app in Hs.
  change (from_instruction []) with (Ok ket0) in Hs.
  rewrite <- rstate_0, evolve_all_rstate in Hs.
  - congruence.
  - rewrite <- (evolution_circuit_gates self bob_blocks false).
    apply unitary_gates.
Qed.

(** ** The value of the leakage probability for M = 4, N = 4 *)

Lemma PI_bounds : (3141 / 1000 < PI < 3143 / 1000)%R.
Proof.
  pose proof (PI_2_3_7_ineq 1) as [Hlo Hhi].
  unfold sum_f_R0, tg_alt, PI_2_3_7_tg, Ratan_seq in Hlo, Hhi.
  simpl in Hlo, Hhi.
  split; lra.
Qed.

(** (PI/256)^2 lies between 1.505e-4 and 1.508e-4. *)
Lemma leakage_4_4_bounds :
  (1505 / 10000000 < (PI / (16 * 4 * 4)) ^ 2 < 1508 / 10000000)%R.
Proof.
  pose proof PI_bounds as [Hlo Hhi].
  replace ((PI / (16 * 4 * 4)) ^ 2)%R with (PI * PI / 65536)%R by (simpl; lra).
  split; nra.
Qed.

(** ** The pass scenario *)

Lemma pass_angle (self : CounterfactualCommunication) :
  angle_after (evolution_circuit self false) 0 = 0%R.
Proof.
  unfold evolution_circuit.
  rewrite inner_step_pass, !flat_map_const, !angle_after_app, !angle_after_repeat.
  lra.
Qed.


(** The trajectory is never empty: it is the entries recorded before the
    last loop iteration followed by the state of the whole circuit. *)
Lemma trajectory_last (self : CounterfactualCommunication) (bob_blocks : bool) :
  exists earlier,
    get_state_evolution self bob_blocks
    = Ok (earlier ++ [rstate (angle_after (evolution_circuit self bob_blocks) 0)])
    /\ length earlier
       = (Z.to_nat (M self) + Z.to_nat (N self)
          + Z.to_nat (N self) + Z.to_nat (M self))%nat.
Proof.
  destruct (get_state_evolution_final self bob_blocks)
    as (states & Hrun & Hl & _ & Hfin).
  destruct (exists_last (l := states)) as (earlier & s & ->).
  { intros ->. simpl in Hl. lia. }
  rewrite final_snoc in Hfin. subst s.
  exists earlier. split; [exact Hrun|].
  rewrite List.length_app in Hl. simpl in Hl. lia.
Qed.

Lemma P0_ket0 : P0 ket0 = 1%R.
Proof. unfold P0. rewrite prob_sqr. simpl. ring. Qed.

Lemma P1_ket0 : P1 ket0 = 0%R.
Proof. unfold P1. rewrite prob_sqr. simpl. ring. Qed.

(** C9: for M >= 1 and N >= 1, when Bob passes, the rotation angles of the
    circuit sum to zero, the trajectory has its 2M + 2N + 1 entries, and the
    last of them is the initial state: amplitude 1 on basis state 0 and
    amplitude 0 on basis state 1, exactly (over exact real arithmetic). *)
Theorem C9_pass_is_identity (m n : Z) :
  1 <= m -> 1 <= n ->
  exists self states earlier,
    init m n = Ok self
    /\ get_state_evolution self false = Ok states
    /\ states = earlier ++ [ket0]
    /\ Z.of_nat (length states) = 2 * m + 2 * n + 1
    /\ angle_after (gates (create_circuit self false false)) 0 = 0%R
    /\ final states = ket0
    /\ data0 (final states) = RtoC 1
    /\ data1 (final states) = RtoC 0.
Proof.
  intros Hm Hn.
  set (self := mkCC m n (PI / IZR (4 * m)) (PI / IZR (4 * n))
                    ((PI / IZR (16 * m * n)) ^ 2)%R).
  destruct (trajectory_last self false) as (earlier & Hrun & Hl).
  rewrite pass_angle, rstate_0 in Hrun.
  exists self, (earlier ++ [ket0]), earlier.
  split; [apply init_ok; lia|].
  split; [exact Hrun|].
  split; [reflexivity|].
  split; [rewrite List.length_app, Hl; simpl; lia|].
  split; [rewrite evolution_circuit_gates; apply pass_angle|].
  rewrite final_snoc. repeat split.
Qed.

Lemma C9_pass_is_identity_witness :
  exists self states earlier,
    init 3 5 = Ok self
    /\ get_state_evolution self false = Ok states
    /\ states = earlier ++ [ket0]
    /\ Z.of_nat (length states) = 2 * 3 + 2 * 5 + 1
    /\ angle_after (gates (create_circuit self false false)) 0 = 0%R
    /\ final states = ket0
    /\ data0 (final states) = RtoC 1
    /\ data1 (final states) = RtoC 0.
Proof. apply (C9_pass_is_identity 3 5); lia. Defined.

(** C4, with the value of the bound as the code has it: for M = 4, N = 4,
    when Bob passes, the trajectory has 17 entries and the last of them has
    P0 within 1e-9 of 1 and P1 within 1e-9 of 0, so P1 is at most the
    leakage probability L = (PI/(16*4*4))^2 of the object plus 1e-9; the
    value of L lies between 1.505e-4 and 1.508e-4. *)
Theorem C4_pass_scenario :
  exists self states earlier last,
    init 4 4 = Ok self
    /\ get_state_evolution self false = Ok states
    /\ states = earlier ++ [last]
    /\ length states = 17%nat
    /\ leakage_prob self = ((PI / (16 * 4 * 4)) ^ 2)%R
    /\ (1505 / 10000000 < leakage_prob self < 1508 / 10000000)%R
    /\ (Rabs (P0 last - 1) <= 1 / 1000000000)%R
    /\ (Rabs (P1 last) <= 1 / 1000000000)%R
    /\ (P1 last <= leakage_prob self + 1 / 1000000000)%R.
Proof.
  set (self := mkCC 4 4 (PI / IZR (4 * 4)) (PI / IZR (4 * 4))
                    ((PI / IZR (16 * 4 * 4)) ^ 2)%R).
  destruct (trajectory_last self false) as (earlier & Hrun & Hl).
  rewrite pass_angle, rstate_0 in Hrun.
  exists self, (earlier ++ [ket0]), earlier, ket0.
  split; [apply init_ok; lia|].
  split; [exact Hrun|].
  split; [reflexivity|].
  split; [rewrite List.length_app, Hl; reflexivity|].
  cbn [leakage_prob self].
  split; [rewrite !mult_IZR; reflexivity|].
  assert (HL : (1505 / 10000000 < (PI / IZR (16 * 4 * 4)) ^ 2 < 1508 / 10000000)%R).
  { rewrite !mult_IZR. apply leakage_4_4_bounds. }
  split; [exact HL|].
  rewrite P0_ket0, P1_ket0.
  replace (1 - 1)%R with 0%R by lra. rewrite Rabs_R0.
  repeat split; lra.
Qed.

(** C4 as stated fails in its value of the bound: for M = 4, N = 4 the
    leakage probability (PI/(16*4*4))^2 is above 1.505e-4, more than six
    times 2.37e-5. *)
Lemma C4_counterexample :
  exists self,
    init 4 4 = Ok self
    /\ leakage_prob self = ((PI / (16 * 4 * 4)) ^ 2)%R
    /\ (6 * (237 / 10000000) < leakage_prob self)%R
    /\ ~ (Rabs (leakage_prob self - 237 / 10000000) <= 1 / 10000)%R.
Proof.
  eexists. split; [apply init_ok; lia|]. cbn [leakage_prob].
  rewrite !mult_IZR. split; [reflexivity|].
  pose proof leakage_4_4_bounds as [Hlo Hhi].
  split; [lra|].
  intros Habs. rewrite Rabs_right in Habs by lra. lra.
Qed.

(** ** Trajectory length and normalization *)

Lemma evolution_circuit_length (self : CounterfactualCommunication)
    (bob_blocks : bool) :
  1 <= N self ->
  length (evolution_circuit self bob_blocks)
  = (Z.to_nat (M self) + Z.to_nat (N self) + Z.to_nat (N self)
     + Z.to_nat (M self) + (if bob_blocks then 1 else 0))%nat.
Proof.
  intros Hn.
  assert (Hmid : 0 <= N self / 2 < N self).
  { split; [apply Z.div_pos; lia | apply Z.div_lt_upper_bound; lia]. }
  unfold evolution_circuit.
  rewrite inner_forward_explicit, !flat_map_const by exact Hn.
  rewrite !List.length_app, !List.repeat_length.
  destruct bob_blocks; simpl; lia.
Qed.

(** The two counts side by side: entries of the trajectory and gates of
    the circuit. *)
Lemma trajectory_and_gate_count (m n : Z) (bob_blocks : bool) :
  1 <= m -> 1 <= n ->
  exists self states,
    init m n = Ok self
    /\ get_state_evolution self bob_blocks = Ok states
    /\ Z.of_nat (length states) = 2 * m + 2 * n + 1
    /\ Z.of_nat (length (gates (create_circuit self bob_blocks false)))
       = 2 * m + 2 * n + (if bob_blocks then 1 else 0).
Proof.
  intros Hm Hn.
  set (self := mkCC m n (PI / IZR (4 * m)) (PI / IZR (4 * n))
                    ((PI / IZR (16 * m * n)) ^ 2)%R).
  destruct (get_state_evolution_final self bob_blocks)
    as (states & Hrun & Hl & _ & _).
  exists self, states. split; [apply init_ok; lia|].
  split; [exact Hrun|].
  rewrite evolution_circuit_gates, evolution_circuit_length, Hl by exact Hn.
  simpl M. simpl N. destruct bob_blocks; repeat split; lia.
Qed.

(** C2, as the code has it: for M >= 1 and N >= 1 and either decision the
    trajectory has 2M + 2N + 1 entries, the initial state and one entry per
    loop iteration. When Bob passes that is the number of gates plus 1; when
    Bob blocks the circuit has one gate more (the flip) and the trajectory
    has as many entries as the circuit has gates, because the flip and the
    midpoint rotation are recorded in one entry. *)
Theorem C2_trajectory_length (m n : Z) (bob_blocks : bool) :
  1 <= m -> 1 <= n ->
  exists self states,
    init m n = Ok self
    /\ get_state_evolution self bob_blocks = Ok states
    /\ Z.of_nat (length states) = 2 * m + 2 * n + 1
    /\ Z.of_nat (length (gates (create_circuit self bob_blocks false)))
       = 2 * m + 2 * n + (if bob_blocks then 1 else 0)
    /\ length states
       = (length (gates (create_circuit self bob_blocks false))
          + (if bob_blocks then 0 else 1))%nat.
Proof.
  intros Hm Hn.
  destruct (trajectory_and_gate_count m n bob_blocks Hm Hn)
    as (self & states & Hi & Hrun & Hl & Hg).
  exists self, states. split; [exact Hi|]. split; [exact Hrun|].
  split; [exact Hl|]. split; [exact Hg|].
  destruct bob_blocks; lia.
Qed.

Lemma C2_trajectory_length_witness :
  exists self states,
    init 4 4 = Ok self
    /\ get_state_evolution self true = Ok states
    /\ Z.of_nat (length states) = 2 * 4 + 2 * 4 + 1
    /\ Z.of_nat (length (gates (create_circuit self true false)))
       = 2 * 4 + 2 * 4 + 1
    /\ length states
       = (length (gates (create_circuit self true false)) + 0)%nat.
Proof. apply (C2_trajectory_length 4 4 true); lia. Defined.

(** C2 as stated fails when Bob blocks: for M = 1, N = 1 the circuit has
    five gates and the trajectory five entries, not six. *)
Lemma C2_counterexample :
  exists self states,
    init 1 1 = Ok self
    /\ get_state_evolution self true = Ok states
    /\ length (gates (create_circuit self true false)) = 5%nat
    /\ length states = 5%nat
    /\ length states
       <> (length (gates (create_circuit self true false)) + 1)%nat.
Proof.
  destruct (trajectory_and_gate_count 1 1 true) as (self & states & Hi & Hrun & Hl & Hg);
    [lia | lia |].
  exists self, states. split; [exact Hi|]. split; [exact Hrun|].
  repeat split; lia.
Qed.

(** C5: for M >= 1 and N >= 1 and either decision, [get_state_evolution]
    returns and every entry of the trajectory has
    |amp0|^2 + |amp1|^2 = 1 (in exact real arithmetic). *)
Theorem C5_normalization (m n : Z) (bob_blocks : bool) :
  1 <= m -> 1 <= n ->
  exists self states,
    init m n = Ok self
    /\ get_state_evolution self bob_blocks = Ok states
    /\ forall s, In s states ->
         (Cabs (data0 s) ^ 2 + Cabs (data1 s) ^ 2 = 1)%R.
Proof.
  intros Hm Hn.
  set (self := mkCC m n (PI / IZR (4 * m)) (PI / IZR (4 * n))
                    ((PI / IZR (16 * m * n)) ^ 2)%R).
  destruct (get_state_evolution_final self bob_blocks)
    as (states & Hrun & _ & Hall & _).
  exists self, states. split; [apply init_ok; lia|].
  split; [exact Hrun|].
  intros s Hs. rewrite List.Forall_forall in Hall. exact (Hall s Hs).
Qed.

Lemma C5_normalization_witness :
  exists self states,
    init 2 3 = Ok self
    /\ get_state_evolution self true = Ok states
    /\ forall s, In s states ->
         (Cabs (data0 s) ^ 2 + Cabs (data1 s) ^ 2 = 1)%R.
Proof. apply (C5_normalization 2 3 true); lia. Defined.

(** ** The block scenario *)

Lemma block_angle (self : CounterfactualCommunication) :
  1 <= N self ->
  angle_after (evolution_circuit self true) 0
  = (PI / 2 - 2 * INR (Z.to_nat (M self)) * theta_M self
     - 2 * INR (Z.to_nat (N self / 2) + 1) * theta_N self)%R.
Proof.
  intros Hn.
  assert (Hmid : 0 <= N self / 2 < N self).
  { split; [apply Z.div_pos; lia | apply Z.div_lt_upper_bound; lia]. }
  unfold evolution_circuit.
  rewrite inner_forward_explicit, !flat_map_const by exact Hn.
  rewrite !angle_after_app, !angle_after_repeat.
  change (angle_after [X]) with (fun phi : R => (PI / 2 - phi)%R). cbv beta.
  rewrite minus_INR by lia.
  lra.
Qed.

Lemma P0_rstate (phi : R) : P0 (rstate phi) = (cos phi * cos phi)%R.
Proof. unfold P0. rewrite prob_sqr. simpl. lra. Qed.

Lemma P1_rstate (phi : R) : P1 (rstate phi) = (sin phi * sin phi)%R.
Proof. unfold P1. rewrite prob_sqr. simpl. lra. Qed.

Lemma cos_sqr_3PI8 : (cos (3 * (PI / 8)) * cos (3 * (PI / 8)) = (2 - sqrt 2) / 4)%R.
Proof.
  pose proof (cos_2a_cos (3 * (PI / 8))) as H2.
  replace (2 * (3 * (PI / 8)))%R with (3 * (PI / 4))%R in H2 by lra.
  rewrite cos_3PI4 in H2.
  assert (Hr : (sqrt 2 * sqrt 2 = 2)%R) by (apply sqrt_sqrt; lra).
  assert (Hp : (0 < sqrt 2)%R) by (apply sqrt_lt_R0; lra).
  assert (Hinv : (-1 / sqrt 2 = - sqrt 2 / 2)%R).
  { apply (Rmult_eq_reg_r (sqrt 2)); [|lra].
    unfold Rdiv. rewrite Rmult_assoc, Rinv_l by lra. nra. }
  rewrite Hinv in H2. lra.
Qed.

Lemma sqrt2_bounds : (1 < sqrt 2 < 3 / 2)%R.
Proof.
  assert (Hr : (sqrt 2 * sqrt 2 = 2)%R) by (apply sqrt_sqrt; lra).
  assert (Hp : (0 <= sqrt 2)%R) by apply sqrt_pos.
  split; nra.
Qed.

(** The block scenario for M = 4, N = 4: the last state is the real state at
    angle -3 PI / 8. *)
Lemma block_4_4 :
  exists self states,
    init 4 4 = Ok self
    /\ get_state_evolution self true = Ok states
    /\ leakage_prob self = ((PI / (16 * 4 * 4)) ^ 2)%R
    /\ final states = rstate (- (3 * (PI / 8))).
Proof.
  set (self := mkCC 4 4 (PI / IZR (4 * 4)) (PI / IZR (4 * 4))
                    ((PI / IZR (16 * 4 * 4)) ^ 2)%R).
  destruct (get_state_evolution_final self true) as (states & Hrun & _ & _ & Hfin).
  exists self, states. split; [apply init_ok; lia|].
  split; [exact Hrun|].
  split; [simpl leakage_prob; rewrite !mult_IZR; reflexivity|].
  rewrite Hfin, block_angle by (simpl; lia).
  f_equal. simpl M. simpl N. simpl theta_M. simpl theta_N.
  change (Z.to_nat 4) with 4%nat. change (Z.to_nat (4 / 2) + 1)%nat with 3%nat.
  rewrite !mult_IZR. simpl INR. lra.
Qed.

(** C1, as the code has it: for M = 4, N = 4, when Bob blocks, the last state
    of the trajectory has amplitudes cos(3 PI/8) and -sin(3 PI/8), so
    P0 = (2 - sqrt 2)/4 (about 0.146) and P1 = (2 + sqrt 2)/4 (about 0.854):
    basis state 1 is the likelier outcome, and P0 is far above the leakage
    probability (PI/(16*4*4))^2 of the object, whose value lies between
    1.505e-4 and 1.508e-4. *)
Theorem C1_block_scenario :
  exists self states,
    init 4 4 = Ok self
    /\ get_state_evolution self true = Ok states
    /\ leakage_prob self = ((PI / (16 * 4 * 4)) ^ 2)%R
    /\ (1505 / 10000000 < leakage_prob self < 1508 / 10000000)%R
    /\ final states = mkSV (RtoC (cos (3 * (PI / 8))))
                           (RtoC (- sin (3 * (PI / 8))))
    /\ P0 (final states) = ((2 - sqrt 2) / 4)%R
    /\ P1 (final states) = ((2 + sqrt 2) / 4)%R
    /\ (P0 (final states) < P1 (final states))%R
    /\ (leakage_prob self < P0 (final states))%R.
Proof.
  destruct block_4_4 as (self & states & Hi & Hrun & Hleak & Hfin).
  exists self, states. split; [exact Hi|]. split; [exact Hrun|].
  split; [exact Hleak|].
  split; [rewrite Hleak; apply leakage_4_4_bounds|].
  split; [rewrite Hfin; unfold rstate; rewrite cos_neg, sin_neg; reflexivity|].
  assert (H0 : P0 (final states) = ((2 - sqrt 2) / 4)%R).
  { rewrite Hfin, P0_rstate, cos_neg. apply cos_sqr_3PI8. }
  assert (H1 : P1 (final states) = ((2 + sqrt 2) / 4)%R).
  { rewrite Hfin, P1_rstate, sin_neg.
    pose proof (sin2_cos2 (3 * (PI / 8))) as Hsc. unfold Rsqr in Hsc.
    pose proof cos_sqr_3PI8 as Hc. lra. }
  split; [exact H0|]. split; [exact H1|].
  rewrite H0, H1, Hleak.
  pose proof sqrt2_bounds as Hb. pose proof PI_4 as H4. pose proof PI_RGT_0 as Hpos.
  split; [lra|].
  assert (Hq : (0 < PI / (16 * 4 * 4) <= 1 / 64)%R) by lra.
  nra.
Qed.

(** C1 as stated fails: for M = 4, N = 4, when Bob blocks, P0 of the last
    state is above 1/8 while the leakage probability is below 1/1000, so P0
    is not within the bound, whatever small slack is granted; and P1 stays
    below 7/8. *)
Lemma C1_counterexample :
  exists self states,
    init 4 4 = Ok self
    /\ get_state_evolution self true = Ok states
    /\ (leakage_prob self < 1 / 1000)%R
    /\ (1 / 8 < P0 (final states))%R
    /\ (P1 (final states) < 7 / 8)%R
    /\ ~ (P0 (final states) <= leakage_prob self + 1 / 10)%R.
Proof.
  destruct block_4_4 as (self & states & Hi & Hrun & Hleak & Hfin).
  exists self, states. split; [exact Hi|]. split; [exact Hrun|].
  assert (H0 : P0 (final states) = ((2 - sqrt 2) / 4)%R).
  { rewrite Hfin, P0_rstate, cos_neg. apply cos_sqr_3PI8. }
  assert (H1 : (P0 (final states) + P1 (final states) = 1)%R).
  { rewrite Hfin, P0_rstate, P1_rstate.
    pose proof (sin2_cos2 (- (3 * (PI / 8)))) as Hsc. unfold Rsqr in Hsc. lra. }
  pose proof sqrt2_bounds as Hb. pose proof PI_4 as H4. pose proof PI_RGT_0 as Hpos.
  assert (Hq : (0 < PI / (16 * 4 * 4) <= 1 / 64)%R) by lra.
  assert (HL : (leakage_prob self < 1 / 1000)%R) by (rewrite Hleak; nra).
  split; [exact HL|]. split; [lra|]. split; [lra|]. lra.
Qed.

(** ** The block scenario for every M and N *)

Lemma INR_to_nat (k : Z) : 0 <= k -> INR (Z.to_nat k) = IZR k.
Proof. intros Hk. rewrite INR_IZR_INZ. f_equal. lia. Qed.

Lemma block_final (m n : Z) :
  1 <= m -> 1 <= n ->
  exists states,
    get_state_evolution
      (mkCC m n (PI / IZR (4 * m)) (PI / IZR (4 * n))
            ((PI / IZR (16 * m * n)) ^ 2)%R) true = Ok states
    /\ final states = rstate (- midpoint_angle n).
Proof.
  intros Hm Hn.
  set (self := mkCC m n (PI / IZR (4 * m)) (PI / IZR (4 * n))
                    ((PI / IZR (16 * m * n)) ^ 2)%R).
  destruct (get_state_evolution_final self true) as (states & Hrun & _ & _ & Hfin).
  exists states. split; [exact Hrun|].
  rewrite Hfin, block_angle by (simpl; lia). f_equal.
  assert (Hmid : 0 <= n / 2) by (apply Z.div_pos; lia).
  simpl M. simpl N. simpl theta_M. simpl theta_N.
  rewrite plus_INR, !INR_to_nat by lia. simpl (INR 1).
  unfold midpoint_angle. rewrite plus_IZR, !mult_IZR.
  assert (Hmr : (1 <= IZR m)%R) by (apply IZR_le; exact Hm).
  assert (Hnr : (1 <= IZR n)%R) by (apply IZR_le; exact Hn).
  field. lra.
Qed.

Lemma midpoint_angle_bounds (n : Z) :
  1 <= n ->
  (PI / 4 < midpoint_angle n <= PI / 2)%R
  /\ (n <= 2 -> midpoint_angle n = (PI / 2)%R)
  /\ (3 <= n -> (midpoint_angle n < PI / 2)%R).
Proof.
  intros Hn. unfold midpoint_angle.
  assert (Hk1 : n < 2 * (n / 2 + 1)) by (pose proof (Z.div_mod n 2); pose proof (Z.mod_pos_bound n 2); lia).
  assert (Hk2 : n / 2 + 1 <= n) by (pose proof (Z.div_mod n 2); pose proof (Z.mod_pos_bound n 2); lia).
  set (k := n / 2 + 1) in *.
  assert (Hnr : (1 <= IZR n)%R) by (apply IZR_le; exact Hn).
  assert (Hk1r : (IZR n < 2 * IZR k)%R)
    by (rewrite <- (mult_IZR 2); apply IZR_lt; exact Hk1).
  assert (Hk2r : (IZR k <= IZR n)%R) by (apply IZR_le; exact Hk2).
  pose proof PI_RGT_0 as Hpi.
  assert (Hx : (IZR k * PI / (2 * IZR n) = IZR k / IZR n * (PI / 2))%R)
    by (field; lra).
  rewrite Hx.
  assert (Hq : (IZR k / IZR n * IZR n = IZR k)%R) by (field; lra).
  set (q := (IZR k / IZR n)%R) in *.
  assert (Hq1 : (1 / 2 < q)%R) by nra.
  assert (Hq2 : (q <= 1)%R) by nra.
  split; [split; nra|]. split.
  - intros Hle. assert (Hkn : k = n).
    { unfold k. pose proof (Z.div_mod n 2). pose proof (Z.mod_pos_bound n 2). lia. }
    assert (Hq3 : q = 1%R) by (rewrite Hkn in Hq; nra).
    rewrite Hq3. lra.
  - intros Hge. assert (Hkn : k < n).
    { unfold k. pose proof (Z.div_mod n 2). pose proof (Z.mod_pos_bound n 2). lia. }
    assert (Hkr : (IZR k < IZR n)%R) by (apply IZR_lt; exact Hkn).
    assert (Hq3 : (q < 1)%R) by nra.
    nra.
Qed.


(** ** Ints as doubles *)

Lemma threshold_above_2_53 : 2 ^ 53 < double_overflow_threshold.
Proof. vm_compute. reflexivity. Qed.

Lemma round_to_53_small (d : Z) : Z.abs d < 2 ^ 53 -> round_to_53 d = d.
Proof.
  intros H. unfold round_to_53. cbv zeta.
  destruct (Z.ltb_spec (Z.abs d) (2 ^ 53)) as [_ | Hge]; [reflexivity | lia].
Qed.

Lemma float_truediv_ok (x : R) (d : Z) :
  d <> 0 -> Z.abs d < double_overflow_threshold ->
  float_truediv x d = Ok (x / IZR (round_to_53 d))%R.
Proof.
  intros Hd Hlt. unfold float_truediv, int_to_float.
  destruct (Z.leb_spec double_overflow_threshold (Z.abs d)) as [Hge | _]; [lia|].
  cbn [bind]. destruct (Z.eqb_spec d 0); [contradiction | reflexivity].
Qed.

Lemma float_truediv_zero (x : R) : float_truediv x 0 = Raise ZeroDivisionError.
Proof.
  pose proof threshold_above_2_53 as Ht.
  assert (H53 : 0 < 2 ^ 53) by (vm_compute; reflexivity).
  unfold float_truediv, int_to_float.
  destruct (Z.leb_spec double_overflow_threshold (Z.abs 0)) as [Hge | _];
    [simpl in Hge; lia | reflexivity].
Qed.

Lemma float_truediv_overflow (x : R) (d : Z) :
  double_overflow_threshold <= Z.abs d ->
  float_truediv x d = Raise OverflowError.
Proof.
  intros Hge. unfold float_truediv, int_to_float.
  destruct (Z.leb_spec double_overflow_threshold (Z.abs d)) as [_ | Hlt];
    [reflexivity | lia].
Qed.

Lemma abs_factors (m n : Z) :
  Z.abs (4 * m) = 4 * Z.abs m
  /\ Z.abs (4 * n) = 4 * Z.abs n
  /\ Z.abs (16 * m * n) = 16 * Z.abs m * Z.abs n.
Proof. rewrite !Z.abs_mul. repeat split. Qed.

(** ** The constructor and the leakage probability *)

Lemma init_zero (m n : Z) :
  m = 0 \/ n = 0 -> init m n = Raise ZeroDivisionError.
Proof.
  intros H. unfold init, float_div_int.
  destruct (Z.eqb_spec (4 * m) 0) as [_ | Hm]; [reflexivity|].
  destruct (Z.eqb_spec (4 * n) 0) as [_ | Hn]; [reflexivity|].
  lia.
Qed.

(** The constructor returns when neither count is 0 and 16 M N fits a
    double. *)
Lemma init_double_ok (m n : Z) :
  m <> 0 -> n <> 0 -> Z.abs (16 * m * n) < double_overflow_threshold ->
  init_double m n
  = Ok (mkCC m n (PI / IZR (round_to_53 (4 * m)))
             (PI / IZR (round_to_53 (4 * n)))
             ((PI / IZR (round_to_53 (16 * m * n))) ^ 2)%R).
Proof.
  intros Hm Hn Hlt.
  destruct (abs_factors m n) as (H4m & H4n & H16).
  unfold init_double.
  rewrite (float_truediv_ok PI (4 * m)) by nia. cbn [bind].
  rewrite (float_truediv_ok PI (4 * n)) by nia. cbn [bind].
  rewrite (float_truediv_ok PI (16 * m * n)) by nia. reflexivity.
Qed.

(** Below 2^53 nothing is rounded, and the constructor is [init]. *)
Lemma init_double_small (m n : Z) :
  m <> 0 -> n <> 0 -> Z.abs (16 * m * n) < 2 ^ 53 ->
  init_double m n
  = Ok (mkCC m n (PI / IZR (4 * m)) (PI / IZR (4 * n))
             ((PI / IZR (16 * m * n)) ^ 2)%R).
Proof.
  intros Hm Hn Hlt.
  pose proof threshold_above_2_53 as Ht.
  destruct (abs_factors m n) as (H4m & H4n & H16).
  rewrite init_double_ok by (try assumption; lia).
  rewrite !round_to_53_small by nia. reflexivity.
Qed.

Lemma init_double_M_zero (m n : Z) :
  m = 0 -> init_double m n = Raise ZeroDivisionError.
Proof.
  intros ->. unfold init_double.
  change (4 * 0) with 0. rewrite float_truediv_zero. reflexivity.
Qed.

Lemma init_double_M_overflow (m n : Z) :
  double_overflow_threshold <= Z.abs (4 * m) ->
  init_double m n = Raise OverflowError.
Proof.
  intros Hge. unfold init_double.
  rewrite float_truediv_overflow by exact Hge. reflexivity.
Qed.

Lemma init_double_N_zero (m n : Z) :
  m <> 0 -> Z.abs (4 * m) < double_overflow_threshold -> n = 0 ->
  init_double m n = Raise ZeroDivisionError.
Proof.
  intros Hm Hlt ->. unfold init_double.
  rewrite (float_truediv_ok PI (4 * m)) by lia. cbn [bind].
  change (4 * 0) with 0. rewrite float_truediv_zero. reflexivity.
Qed.

Lemma init_double_overflow (m n : Z) :
  m <> 0 -> n <> 0 -> double_overflow_threshold <= Z.abs (16 * m * n) ->
  init_double m n = Raise OverflowError.
Proof.
  intros Hm Hn Hge.
  destruct (Z.le_gt_cases double_overflow_threshold (Z.abs (4 * m))) as [H1 | H1];
    [apply init_double_M_overflow; exact H1|].
  unfold init_double.
  rewrite (float_truediv_ok PI (4 * m)) by lia. cbn [bind].
  destruct (Z.le_gt_cases double_overflow_threshold (Z.abs (4 * n))) as [H2 | H2];
    [rewrite float_truediv_overflow by exact H2; reflexivity|].
  rewrite (float_truediv_ok PI (4 * n)) by lia. cbn [bind].
  rewrite float_truediv_overflow by exact Hge. reflexivity.
Qed.

(** C6, as the code has it: the constructor validates nothing. It returns
    an object for every M and N other than 0, negative ones included, as
    long as 16 M N fits a double. With M = 0 it fails with the
    ZeroDivisionError of the division by 4*M; with N = 0 and M other than
    0, with that of the division by 4*N unless 4*M is too large for a
    double. When M is not 0 and 4*M is too large for a double, or neither
    is 0 and 16*M*N is too large, it fails with OverflowError. It raises
    nothing else. *)
Theorem C6_constructor (m n : Z) :
  (m = 0 -> init_double m n = Raise ZeroDivisionError)
  /\ (m <> 0 -> Z.abs (4 * m) < double_overflow_threshold -> n = 0 ->
      init_double m n = Raise ZeroDivisionError)
  /\ (m <> 0 -> n <> 0 -> Z.abs (16 * m * n) < double_overflow_threshold ->
      exists self, init_double m n = Ok self /\ M self = m /\ N self = n)
  /\ (double_overflow_threshold <= Z.abs (4 * m) ->
      init_double m n = Raise OverflowError)
  /\ (m <> 0 -> n <> 0 -> double_overflow_threshold <= Z.abs (16 * m * n) ->
      init_double m n = Raise OverflowError)
  /\ (forall e, init_double m n = Raise e ->
        (e = ZeroDivisionError /\ (m = 0 \/ n = 0))
        \/ (e = OverflowError /\ m <> 0
            /\ (double_overflow_threshold <= Z.abs (4 * m)
                \/ n <> 0 /\ double_overflow_threshold <= Z.abs (16 * m * n)))).
Proof.
  split; [apply init_double_M_zero|].
  split; [apply init_double_N_zero|].
  split.
  { intros Hm Hn Hlt. eexists. split; [apply init_double_ok; assumption|].
    split; reflexivity. }
  split; [apply init_double_M_overflow|].
  split; [apply init_double_overflow|].
  intros e He.
  destruct (Z.eq_dec m 0) as [Hm | Hm].
  { rewrite init_double_M_zero in He by exact Hm.
    left. split; [congruence | left; exact Hm]. }
  destruct (Z.le_gt_cases double_overflow_threshold (Z.abs (4 * m))) as [H1 | H1].
  { rewrite init_double_M_overflow in He by exact H1.
    right. split; [congruence|]. split; [exact Hm | left; exact H1]. }
  destruct (Z.eq_dec n 0) as [Hn | Hn].
  { rewrite init_double_N_zero in He by (try assumption; lia).
    left. split; [congruence | right; exact Hn]. }
  destruct (Z.le_gt_cases double_overflow_threshold (Z.abs (16 * m * n))) as [H2 | H2].
  { rewrite init_double_overflow in He by assumption.
    right. split; [congruence|]. split; [exact Hm | right; split; assumption]. }
  rewrite init_double_ok in He by (try assumption; lia). discriminate.
Qed.

Lemma C6_constructor_witness :
  init_double 0 4 = Raise ZeroDivisionError
  /\ init_double 4 0 = Raise ZeroDivisionError
  /\ (exists self, init_double (-1) 4 = Ok self /\ M self = -1 /\ N self = 4)
  /\ init_double (2 ^ 1024) 4 = Raise OverflowError
  /\ init_double (10 ^ 154) (10 ^ 154) = Raise OverflowError.
Proof.
  split; [apply (proj1 (C6_constructor 0 4)); reflexivity|].
  split.
  { apply (proj1 (proj2 (C6_constructor 4 0)));
      [lia | vm_compute; reflexivity | reflexivity]. }
  split.
  { apply (proj1 (proj2 (proj2 (C6_constructor (-1) 4))));
      [lia | lia | vm_compute; reflexivity]. }
  split.
  { apply (proj1 (proj2 (proj2 (proj2 (C6_constructor (2 ^ 1024) 4))))).
    vm_compute. discriminate. }
  apply (proj1 (proj2 (proj2 (proj2 (proj2 (C6_constructor (10 ^ 154) (10 ^ 154))))))).
  - vm_compute. discriminate.
  - vm_compute. discriminate.
  - vm_compute. discriminate.
Defined.

(** C6 as stated fails: with M = -1 < 1 the constructor returns an
    object, and the error for M = 0 is ZeroDivisionError. *)
Lemma C6_counterexample :
  -1 < 1
  /\ (exists self, init_double (-1) 4 = Ok self /\ M self = -1)
  /\ init_double 0 4 = Raise ZeroDivisionError.
Proof.
  split; [lia|]. split.
  - eexists. split; [apply init_double_small; [lia | lia | vm_compute; reflexivity]
                    | reflexivity].
  - apply init_double_M_zero. reflexivity.
Qed.

Lemma leakage_decreasing (x y : Z) :
  0 < x < y -> ((PI / IZR y) ^ 2 < (PI / IZR x) ^ 2)%R.
Proof.
  intros [Hx Hxy].
  assert (Hx' : (0 < IZR x)%R) by (apply (IZR_lt 0); exact Hx).
  assert (Hxy' : (IZR x < IZR y)%R) by (apply IZR_lt; exact Hxy).
  pose proof PI_RGT_0 as Hpi.
  assert (Hinv : (/ IZR y < / IZR x)%R)
    by (apply Rinv_lt_contravar; [nra | exact Hxy']).
  assert (Hiy : (0 < / IZR y)%R) by (apply Rinv_0_lt_compat; lra).
  unfold Rdiv.
  assert (Hu : (0 < PI * / IZR y)%R) by (apply Rmult_lt_0_compat; assumption).
  assert (Huv : (PI * / IZR y < PI * / IZR x)%R)
    by (apply Rmult_lt_compat_l; assumption).
  set (u := (PI * / IZR y)%R) in *. set (v := (PI * / IZR x)%R) in *.
  clearbody u v. simpl. nra.
Qed.

(** The two neighbours 2^53 and 2^53 + 1: sixteen times either rounds to
    the double 2^57. *)
Lemma neighbours_round_alike :
  round_to_53 (16 * 2 ^ 53 * 1) = 2 ^ 57
  /\ round_to_53 (16 * (2 ^ 53 + 1) * 1) = 2 ^ 57.
Proof. split; vm_compute; reflexivity. Qed.

Lemma init_double_neighbours :
  exists tM tM',
    init_double (2 ^ 53) 1
    = Ok (mkCC (2 ^ 53) 1 tM (PI / IZR 4) ((PI / IZR (2 ^ 57)) ^ 2)%R)
    /\ init_double (2 ^ 53 + 1) 1
       = Ok (mkCC (2 ^ 53 + 1) 1 tM' (PI / IZR 4) ((PI / IZR (2 ^ 57)) ^ 2)%R).
Proof.
  destruct neighbours_round_alike as [H1 H2].
  do 2 eexists. split.
  - rewrite init_double_ok;
      [| vm_compute; discriminate | lia | vm_compute; reflexivity].
    rewrite H1. change (round_to_53 (4 * 1)) with 4. reflexivity.
  - rewrite init_double_ok;
      [| vm_compute; discriminate | lia | vm_compute; reflexivity].
    rewrite H2. change (round_to_53 (4 * 1)) with 4. reflexivity.
Qed.

(** C7, as the code has it: as long as 16*M*N stays below 2^53 the leakage
    probability strictly decreases when M grows with N fixed, and when N
    grows with M fixed: for 1 <= a < b and c >= 1 with 16*b*c < 2^53 the
    objects are constructed and leakage(b, c) < leakage(a, c) and
    leakage(c, b) < leakage(c, a). *)
Theorem C7_leakage_monotone (a b c : Z) :
  1 <= a < b -> 1 <= c -> 16 * b * c < 2 ^ 53 ->
  exists s_ac s_bc s_ca s_cb,
    init_double a c = Ok s_ac /\ init_double b c = Ok s_bc
    /\ init_double c a = Ok s_ca /\ init_double c b = Ok s_cb
    /\ (leakage_prob s_bc < leakage_prob s_ac)%R
    /\ (leakage_prob s_cb < leakage_prob s_ca)%R.
Proof.
  intros Hab Hc Hlt. do 4 eexists.
  split; [apply init_double_small; nia|]. split; [apply init_double_small; nia|].
  split; [apply init_double_small; nia|]. split; [apply init_double_small; nia|].
  cbn [leakage_prob]. split; apply leakage_decreasing; nia.
Qed.

Lemma C7_leakage_monotone_witness :
  exists s_ac s_bc s_ca s_cb,
    init_double 2 4 = Ok s_ac /\ init_double 4 4 = Ok s_bc
    /\ init_double 4 2 = Ok s_ca /\ init_double 4 4 = Ok s_cb
    /\ (leakage_prob s_bc < leakage_prob s_ac)%R
    /\ (leakage_prob s_cb < leakage_prob s_ca)%R.
Proof.
  apply (C7_leakage_monotone 2 4 4); [lia | lia | vm_compute; reflexivity].
Defined.

(** C7 as stated fails for large counts: 16*M*N is converted to a double
    before the division, and with N = 1 the counts M1 = 2^53 and
    M2 = 2^53 + 1 give the same double 2^57, so the two objects have the
    same leakage probability. *)
Lemma C7_counterexample :
  1 <= 2 ^ 53 < 2 ^ 53 + 1
  /\ exists s1 s2,
       init_double (2 ^ 53) 1 = Ok s1
       /\ init_double (2 ^ 53 + 1) 1 = Ok s2
       /\ leakage_prob s2 = leakage_prob s1
       /\ ~ (leakage_prob s2 < leakage_prob s1)%R.
Proof.
  split; [split; [vm_compute; discriminate | lia]|].
  destruct init_double_neighbours as (tM & tM' & H1 & H2).
  do 2 eexists. split; [exact H1|]. split; [exact H2|].
  cbn [leakage_prob]. split; [reflexivity | apply Rlt_irrefl].
Qed.






(** ** [analyze_results] *)

Lemma dict_get_default (counts : gmap string Z) (key : string) (dflt : Z) :
  dict_get counts key dflt = default dflt (counts !! key).
Proof. unfold dict_get. destruct (counts !! key); reflexivity. Qed.

Lemma int_truediv_ok (a b : Z) :
  b <> 0 -> Z.abs a < double_overflow_threshold * Z.abs b ->
  int_truediv a b = Ok (IZR a / IZR b)%R.
Proof.
  intros Hb Hlt. unfold int_truediv.
  destruct (Z.eqb_spec b 0); [contradiction|].
  destruct (Z.leb_spec (double_overflow_threshold * Z.abs b) (Z.abs a));
    [lia | reflexivity].
Qed.

Lemma int_truediv_overflow (a b : Z) :
  b <> 0 -> double_overflow_threshold * Z.abs b <= Z.abs a ->
  int_truediv a b = Raise OverflowError.
Proof.
  intros Hb Hge. unfold int_truediv.
  destruct (Z.eqb_spec b 0); [contradiction|].
  destruct (Z.leb_spec (double_overflow_threshold * Z.abs b) (Z.abs a));
    [reflexivity | lia].
Qed.

(** With no shots the first percentage already divides by zero. *)
Lemma analyze_results_zero (counts : gmap string Z) :
  analyze_results counts 0 = Raise ZeroDivisionError.
Proof. reflexivity. Qed.

(** Both percentages fit a double: the two lines are printed and the pair
    is returned. *)
Lemma analyze_results_ok (counts : gmap string Z) (shots : Z) :
  shots <> 0 ->
  Z.abs (100 * dict_get counts "0" 0) < double_overflow_threshold * Z.abs shots ->
  Z.abs (100 * dict_get counts "1" 0) < double_overflow_threshold * Z.abs shots ->
  analyze_results counts shots
  = Ok ([mkLine D3_H (dict_get counts "0" 0);
         mkLine D12_V (dict_get counts "1" 0)],
        (dict_get counts "0" 0, dict_get counts "1" 0)).
Proof.
  intros Hs H0 H1. unfold analyze_results.
  rewrite (int_truediv_ok _ shots Hs H0). cbn [bind].
  rewrite (int_truediv_ok _ shots Hs H1). reflexivity.
Qed.

(** One of the percentages does not fit a double. *)
Lemma analyze_results_overflow (counts : gmap string Z) (shots : Z) :
  shots <> 0 ->
  double_overflow_threshold * Z.abs shots <= Z.abs (100 * dict_get counts "0" 0)
  \/ double_overflow_threshold * Z.abs shots <= Z.abs (100 * dict_get counts "1" 0) ->
  analyze_results counts shots = Raise OverflowError.
Proof.
  intros Hs H. unfold analyze_results.
  destruct (Z.le_gt_cases (double_overflow_threshold * Z.abs shots)
                          (Z.abs (100 * dict_get counts "0" 0))) as [H0 | H0].
  - rewrite (int_truediv_overflow _ shots Hs H0). reflexivity.
  - rewrite (int_truediv_ok _ shots Hs) by lia. cbn [bind].
    destruct H as [H | H]; [lia|].
    rewrite (int_truediv_overflow _ shots Hs H). reflexivity.
Qed.

Lemma threshold_above_10_302 : 10 ^ 302 < double_overflow_threshold.
Proof. vm_compute. reflexivity. Qed.

(** C10, as the code has it, for counts that can be printed. An absent
    label counts as 0. With a shot count other than 0 (the default 1000
    among them) [analyze_results] returns the pair (count of "0", count of
    "1") when both percentages 100*count/shots fit a double, as they do for
    counts below 10^300, and for the empty mapping the pair is (0, 0); when
    a percentage does not fit, it raises OverflowError. With a shot count
    of 0 it raises ZeroDivisionError, whatever the mapping. *)
Theorem C10_analyze_results (counts : gmap string Z) (shots : Z) :
  printable (default 0 (counts !! "0")) ->
  printable (default 0 (counts !! "1")) ->
  (shots = 0 -> analyze_results counts shots = Raise ZeroDivisionError)
  /\ (shots <> 0 ->
      Z.abs (100 * default 0 (counts !! "0"))
        < double_overflow_threshold * Z.abs shots ->
      Z.abs (100 * default 0 (counts !! "1"))
        < double_overflow_threshold * Z.abs shots ->
      exists out,
        analyze_results counts shots
        = Ok (out, (default 0 (counts !! "0"), default 0 (counts !! "1"))))
  /\ (shots <> 0 ->
      Z.abs (default 0 (counts !! "0")) < 10 ^ 300 ->
      Z.abs (default 0 (counts !! "1")) < 10 ^ 300 ->
      exists out,
        analyze_results counts shots
        = Ok (out, (default 0 (counts !! "0"), default 0 (counts !! "1"))))
  /\ (shots <> 0 ->
      double_overflow_threshold * Z.abs shots
        <= Z.abs (100 * default 0 (counts !! "0"))
      \/ double_overflow_threshold * Z.abs shots
           <= Z.abs (100 * default 0 (counts !! "1")) ->
      analyze_results counts shots = Raise OverflowError)
  /\ (shots <> 0 -> exists out, analyze_results ∅ shots = Ok (out, (0, 0)))
  /\ default_shots <> 0.
Proof.
  intros _ _. rewrite <- !dict_get_default.
  split; [intros ->; apply analyze_results_zero|].
  split.
  { intros Hs H0 H1. eexists. apply analyze_results_ok; assumption. }
  split.
  { intros Hs H0 H1. eexists.
    pose proof threshold_above_10_302 as Ht.
    assert (H302 : 10 ^ 302 = 100 * 10 ^ 300) by (vm_compute; reflexivity).
    apply analyze_results_ok; [exact Hs | nia | nia]. }
  split; [apply analyze_results_overflow|].
  split; [|discriminate].
  intros Hs. eexists.
  pose proof threshold_above_10_302 as Ht.
  assert (H302 : 0 < 10 ^ 302) by (vm_compute; reflexivity).
  rewrite (analyze_results_ok ∅ shots Hs).
  - unfold dict_get. rewrite !lookup_empty. reflexivity.
  - unfold dict_get. rewrite lookup_empty. simpl. nia.
  - unfold dict_get. rewrite lookup_empty. simpl. nia.
Qed.

Lemma C10_analyze_results_witness :
  analyze_results {[ "0" := 7 ]} 0 = Raise ZeroDivisionError
  /\ (exists out,
        analyze_results {[ "0" := 7 ]} 10
        = Ok (out, (default 0 (({[ "0" := 7 ]} : gmap string Z) !! "0"),
                    default 0 (({[ "0" := 7 ]} : gmap string Z) !! "1"))))
  /\ (exists out, analyze_results ∅ 10 = Ok (out, (0, 0))).
Proof.
  assert (Hp0 : printable (default 0 (({[ "0" := 7 ]} : gmap string Z) !! "0")))
    by (vm_compute; reflexivity).
  assert (Hp1 : printable (default 0 (({[ "0" := 7 ]} : gmap string Z) !! "1")))
    by (vm_compute; reflexivity).
  split.
  { apply (proj1 (C10_analyze_results {[ "0" := 7 ]} 0 Hp0 Hp1)). reflexivity. }
  split.
  { apply (proj1 (proj2 (proj2 (C10_analyze_results {[ "0" := 7 ]} 10 Hp0 Hp1))));
      [lia | vm_compute; reflexivity | vm_compute; reflexivity]. }
  apply (proj1 (proj2 (proj2 (proj2 (proj2
           (C10_analyze_results {[ "0" := 7 ]} 10 Hp0 Hp1)))))).
  lia.
Defined.

(** C10 as stated fails: the query is not total. With a shot count of 0
    the first percentage divides by zero, for the empty mapping too; and at
    the default shot count a count of 10^400 makes the percentage too large
    for a double, so the call raises OverflowError instead of returning the
    pair. *)
Lemma C10_counterexample :
  analyze_results ∅ 0 = Raise ZeroDivisionError
  /\ printable (10 ^ 400)
  /\ analyze_results {[ "0" := 10 ^ 400 ]} default_shots = Raise OverflowError.
Proof.
  split; [reflexivity|]. split; [vm_compute; reflexivity|].
  apply analyze_results_overflow; [discriminate|].
  left. unfold dict_get. rewrite lookup_singleton_eq.
  vm_compute. discriminate.
Qed.

(** * Further properties *)

(** ** The whole trajectory *)

Lemma angles_from_app (a b : list (list instruction)) (phi : R) :
  angles_from (a ++ b) phi
  = angles_from a phi ++ angles_from b (angle_after (concat a) phi).
Proof.
  revert phi. induction a as [|gs a IH]; intros phi; [reflexivity|].
  simpl. rewrite IH, angle_after_app. reflexivity.
Qed.

Lemma angles_from_length (steps : list (list instruction)) (phi : R) :
  length (angles_from steps phi) = length steps.
Proof.
  revert phi. induction steps as [|gs steps IH]; intros phi; [reflexivity|].
  simpl. rewrite IH. reflexivity.
Qed.

Lemma range_max (n : Z) : range (Z.max 0 n) = range n.
Proof. unfold range. f_equal. f_equal. lia. Qed.

Lemma range_length (n : Z) : length (range n) = Z.to_nat n.
Proof. unfold range. rewrite List.length_map, List.length_seq. reflexivity. Qed.

(** A loop of [get_state_evolution] started at the real state of angle
    [phi0] appends the real states of the angles its iterations reach. *)
Lemma evolution_loop_states (n : Z) (body : Z -> evo_state -> result evo_state)
    (step : Z -> list instruction) (st0 : evo_state) (phi0 : R) :
  (forall k st, body k st = record_state (fst st ++ step k) (snd st)) ->
  (forall k, forallb unitary (step k) = true) ->
  from_instruction (fst st0) = Ok (rstate phi0) ->
  exists st', for_range_m n body st0 = Ok st'
    /\ snd st' = snd st0 ++ map rstate (angles_from (map step (range n)) phi0)
    /\ from_instruction (fst st')
       = Ok (rstate (angle_after (concat (map step (range n))) phi0)).
Proof.
  intros Hbody Hu H0.
  destruct (for_range_m_inv
              (fun k st =>
                 snd st = snd st0
                          ++ map rstate (angles_from (map step (range k)) phi0)
                 /\ from_instruction (fst st)
                    = Ok (rstate (angle_after (concat (map step (range k))) phi0)))
              n body st0) as (st' & Hrun & Hs & Hq).
  - simpl. rewrite List.app_nil_r. split; [reflexivity | exact H0].
  - intros k [qc states] Hk [Hs Hq]. simpl in Hs, Hq.
    rewrite Hbody. unfold record_state. simpl fst. simpl snd.
    rewrite from_instruction_app, Hq, evolve_all_rstate by apply Hu.
    cbn [bind]. eexists. split; [reflexivity|]. simpl fst. simpl snd.
    rewrite range_succ, List.map_app, angles_from_app, List.map_app by lia.
    rewrite List.concat_app, angle_after_app. simpl.
    rewrite List.app_nil_r, Hs, <- List.app_assoc.
    split; [reflexivity|].
    rewrite from_instruction_app, Hq, evolve_all_rstate by apply Hu.
    reflexivity.
  - exists st'. rewrite range_max in Hs, Hq. auto.
Qed.

Ltac loop_states step st Hs Hq :=
  match goal with
  | |- context [@for_range_m ?S ?n ?body ?st0] =>
      let Hrun := fresh "Hrun" in
      edestruct (evolution_loop_states n body step st0) as (st & Hrun & Hs & Hq);
      [ | | | change (@for_range_m S n body st0 = Ok st) in Hrun;
              rewrite Hrun; cbn [bind] ]
  end.

(** The trajectory in closed form: the initial state, then the real states
    at the angles reached after each loop iteration. *)
Lemma get_state_evolution_closed_form (self : CounterfactualCommunication)
    (bob_blocks : bool) :
  get_state_evolution self bob_blocks
  = Ok (ket0 :: map rstate (angles_from (evolution_steps self bob_blocks) 0)).
Proof.
  unfold get_state_evolution, get_state_evolution_run.
  change (record_state [] []) with (Ok (([], [ket0]) : evo_state)).
  cbn [bind].
  loop_states (fun _ : Z => [Ry (2 * theta_M self)]) st1 Hs1 Hq1;
    [ intros; reflexivity | intros; reflexivity
    | simpl; rewrite rstate_0; reflexivity |].
  loop_states (inner_step (2 * theta_N self) (N self / 2) bob_blocks) st2 Hs2 Hq2;
    [ intros k st; unfold inner_step; cbv zeta;
      destruct ((k =? N self / 2) && bob_blocks);
      rewrite <- ?List.app_assoc; reflexivity
    | intros k; unfold inner_step;
      destruct ((k =? N self / 2) && bob_blocks); reflexivity
    | exact Hq1 |].
  loop_states (fun _ : Z => [Ry (-2 * theta_N self)]) st3 Hs3 Hq3;
    [intros; reflexivity | intros; reflexivity | exact Hq2 |].
  loop_states (fun _ : Z => [Ry (-2 * theta_M self)]) st4 Hs4 Hq4;
    [intros; reflexivity | intros; reflexivity | exact Hq3 |].
  f_equal. rewrite Hs4, Hs3, Hs2, Hs1. simpl snd.
  unfold evolution_steps.
  rewrite !angles_from_app, !List.map_app, <- !angle_after_app.
  rewrite <- !List.concat_app, <- !List.app_assoc. reflexivity.
Qed.

Lemma evolution_steps_length (self : CounterfactualCommunication)
    (bob_blocks : bool) :
  length (evolution_steps self bob_blocks)
  = (Z.to_nat (M self) + Z.to_nat (N self)
     + Z.to_nat (N self) + Z.to_nat (M self))%nat.
Proof.
  unfold evolution_steps.
  rewrite !List.length_app, !List.length_map, !range_length. lia.
Qed.

(** X1: for every object and either decision, [get_state_evolution] returns
    a trajectory whose amplitudes are all real: the imaginary part of
    either amplitude of every entry is zero. *)
Theorem trajectory_amplitudes_real (self : CounterfactualCommunication)
    (bob_blocks : bool) :
  exists states,
    get_state_evolution self bob_blocks = Ok states
    /\ forall s, In s states ->
         im (data0 s) = 0%R /\ im (data1 s) = 0%R.
Proof.
  eexists. split; [apply get_state_evolution_closed_form|].
  intros s [<- | Hs].
  - simpl. split; reflexivity.
  - apply List.in_map_iff in Hs. destruct Hs as (phi & <- & _). simpl.
    split; reflexivity.
Qed.

(** X2: for every object, the pass and the block trajectory have the same
    number of entries, 1 + 2 max(0, M) + 2 max(0, N), so the step axis built
    from the pass trajectory has the length of each of the four probability
    series that [create_visualizations] plots against it, the two of the
    block trajectory included. *)
Theorem plotted_series_fit (self : CounterfactualCommunication) :
  exists states_pass states_block,
    get_state_evolution self false = Ok states_pass
    /\ get_state_evolution self true = Ok states_block
    /\ Z.of_nat (length states_pass)
       = 1 + 2 * Z.max 0 (M self) + 2 * Z.max 0 (N self)
    /\ length states_block = length states_pass
    /\ length (probs_H states_pass) = length (steps_axis states_pass)
    /\ length (probs_V states_pass) = length (steps_axis states_pass)
    /\ length (probs_H states_block) = length (steps_axis states_pass)
    /\ length (probs_V states_block) = length (steps_axis states_pass).
Proof.
  destruct (get_state_evolution_final self false) as (sp & Hp & Hlp & _).
  destruct (get_state_evolution_final self true) as (sb & Hb & Hlb & _).
  exists sp, sb. split; [exact Hp|]. split; [exact Hb|].
  assert (HH : forall l, length (probs_H l) = length l)
    by (intros; apply List.length_map).
  assert (HV : forall l, length (probs_V l) = length l)
    by (intros; apply List.length_map).
  unfold steps_axis. rewrite range_length, !HH, !HV.
  repeat split; lia.
Qed.

(** ** Entries of the trajectory by index *)

Lemma map_seq_shift (s y : nat) :
  map Z.of_nat (seq s y)
  = map (fun i => Z.of_nat s + i) (map Z.of_nat (seq 0 y)).
Proof.
  induction y as [|y IH]; [reflexivity|].
  rewrite !List.seq_S, !List.map_app, IH. simpl. do 3 f_equal. lia.
Qed.

Lemma range_split (a n : Z) :
  0 <= a < n ->
  range n = range a ++ a :: map (fun i => a + 1 + i) (range (n - a - 1)).
Proof.
  intros Ha. unfold range.
  replace (Z.to_nat n)
    with (Z.to_nat a + Datatypes.S (Z.to_nat (n - a - 1)))%nat by lia.
  rewrite List.seq_app, List.map_app. simpl.
  f_equal. f_equal; [lia|].
  rewrite map_seq_shift. apply List.map_ext. intros i. lia.
Qed.

Lemma in_range (i n : Z) : In i (range n) -> 0 <= i < n.
Proof.
  unfold range. intros Hi. apply List.in_map_iff in Hi.
  destruct Hi as (j & <- & Hj). apply List.in_seq in Hj. lia.
Qed.

Lemma map_inner_step_off_midpoint (theta : R) (mid : Z) (bob_blocks : bool)
    (l : list Z) :
  (forall i, In i l -> i <> mid) ->
  map (inner_step theta mid bob_blocks) l = map (fun _ => [Ry theta]) l.
Proof.
  intros Hl. apply List.map_ext_in. intros i Hi. unfold inner_step.
  replace (i =? mid) with false by (symmetry; apply Z.eqb_neq; auto).
  reflexivity.
Qed.

Lemma concat_map_const (g : instruction) (n : Z) :
  concat (map (fun _ : Z => [g]) (range n)) = repeat g (Z.to_nat n).
Proof. rewrite <- List.flat_map_concat_map. apply flat_map_const. Qed.

Lemma angles_from_nth (a : list (list instruction)) (gs : list instruction)
    (r : list (list instruction)) (phi d : R) :
  nth (length a) (angles_from (a ++ gs :: r) phi) d
  = angle_after gs (angle_after (concat a) phi).
Proof.
  rewrite angles_from_app, List.app_nth2 by (rewrite angles_from_length; lia).
  rewrite angles_from_length, Nat.sub_diag. reflexivity.
Qed.

Lemma angles_from_firstn (a b : list (list instruction)) (phi : R) :
  firstn (length a) (angles_from (a ++ b) phi) = angles_from a phi.
Proof.
  rewrite angles_from_app, <- (angles_from_length a phi).
  rewrite List.firstn_app, Nat.sub_diag, List.firstn_all. simpl.
  apply List.app_nil_r.
Qed.

Lemma nth_trajectory (angles : list R) (i : nat) :
  nth (Datatypes.S i) (ket0 :: map rstate angles) ket0
  = rstate (nth i angles 0%R).
Proof. simpl. rewrite <- rstate_0. apply List.map_nth. Qed.

(** The entries recorded by the outer forward loop, for any object. *)
Lemma outer_forward_entry (self : CounterfactualCommunication)
    (bob_blocks : bool) (j : Z) :
  0 <= j <= M self ->
  nth (Z.to_nat j)
      (ket0 :: map rstate (angles_from (evolution_steps self bob_blocks) 0)) ket0
  = rstate (IZR j * theta_M self).
Proof.
  intros Hj.
  destruct (Z.eq_dec j 0) as [-> | Hj0].
  - simpl. rewrite Rmult_0_l. symmetry. apply rstate_0.
  - replace (Z.to_nat j) with (Datatypes.S (Z.to_nat (j - 1))) by lia.
    rewrite nth_trajectory. f_equal.
    unfold evolution_steps.
    rewrite (range_split (j - 1) (M self)) by lia.
    rewrite List.map_app. simpl map. rewrite <- List.app_assoc.
    rewrite <- List.app_comm_cons.
    replace (Z.to_nat (j - 1))
      with (length (map (fun _ : Z => [Ry (2 * theta_M self)]) (range (j - 1))))
      by (rewrite List.length_map, range_length; reflexivity).
    rewrite angles_from_nth, concat_map_const, angle_after_repeat.
    simpl angle_after. rewrite INR_to_nat by lia.
    rewrite minus_IZR. lra.
Qed.

(** X3, over exact real arithmetic (the doubles of the program idealised
    as real numbers, which they follow up to rounding): for M >= 1 and
    N >= 1 and either decision, the entry of index j of the trajectory,
    0 <= j <= M, is the real state at angle j PI/(4 M): P0 = cos^2 and
    P1 = sin^2 of that angle. The first entry is the initial state and the
    entry of index M is the equal superposition, P0 = P1 = 1/2. *)
Theorem outer_forward_states (m n : Z) (bob_blocks : bool) (j : Z) :
  1 <= m -> 1 <= n -> 0 <= j <= m ->
  exists self states,
    init m n = Ok self
    /\ get_state_evolution self bob_blocks = Ok states
    /\ nth (Z.to_nat j) states ket0 = rstate (IZR j * (PI / (4 * IZR m)))
    /\ P0 (nth (Z.to_nat j) states ket0)
       = (cos (IZR j * (PI / (4 * IZR m))) ^ 2)%R
    /\ P1 (nth (Z.to_nat j) states ket0)
       = (sin (IZR j * (PI / (4 * IZR m))) ^ 2)%R
    /\ nth 0 states ket0 = ket0
    /\ P0 (nth (Z.to_nat m) states ket0) = (1 / 2)%R
    /\ P1 (nth (Z.to_nat m) states ket0) = (1 / 2)%R.
Proof.
  intros Hm Hn Hj.
  set (self := mkCC m n (PI / IZR (4 * m)) (PI / IZR (4 * n))
                    ((PI / IZR (16 * m * n)) ^ 2)%R).
  exists self. eexists. split; [apply init_ok; lia|].
  split; [apply get_state_evolution_closed_form|].
  assert (Ht : theta_M self = (PI / (4 * IZR m))%R)
    by (simpl; rewrite mult_IZR; reflexivity).
  assert (Hmr : (1 <= IZR m)%R) by (apply IZR_le; exact Hm).
  rewrite (outer_forward_entry self bob_blocks j) by (simpl; lia).
  rewrite (outer_forward_entry self bob_blocks m) by (simpl; lia).
  rewrite Ht, P0_rstate, !P1_rstate, P0_rstate.
  split; [reflexivity|]. split; [simpl; lra|]. split; [simpl; lra|].
  split; [reflexivity|].
  replace (IZR m * (PI / (4 * IZR m)))%R with (PI / 4)%R by (field; lra).
  rewrite cos_PI4, sin_PI4.
  assert (Hr : (sqrt 2 * sqrt 2 = 2)%R) by (apply sqrt_sqrt; lra).
  assert (Hp : (0 < sqrt 2)%R) by (apply sqrt_lt_R0; lra).
  assert (Hh : (1 / sqrt 2 * (1 / sqrt 2) = 1 / 2)%R).
  { replace (1 / sqrt 2 * (1 / sqrt 2))%R with (1 / (sqrt 2 * sqrt 2))%R
      by (field; lra).
    rewrite Hr. reflexivity. }
  split; exact Hh.
Qed.

Lemma outer_forward_states_witness :
  exists self states,
    init 4 4 = Ok self
    /\ get_state_evolution self true = Ok states
    /\ nth (Z.to_nat 2) states ket0 = rstate (IZR 2 * (PI / (4 * IZR 4)))
    /\ P0 (nth (Z.to_nat 2) states ket0)
       = (cos (IZR 2 * (PI / (4 * IZR 4))) ^ 2)%R
    /\ P1 (nth (Z.to_nat 2) states ket0)
       = (sin (IZR 2 * (PI / (4 * IZR 4))) ^ 2)%R
    /\ nth 0 states ket0 = ket0
    /\ P0 (nth (Z.to_nat 4) states ket0) = (1 / 2)%R
    /\ P1 (nth (Z.to_nat 4) states ket0) = (1 / 2)%R.
Proof. apply (outer_forward_states 4 4 true 2); lia. Defined.

(** ** Pass and block trajectories side by side *)

(** The iterations split at the midpoint of the inner forward loop: what
    comes before and after it does not depend on the decision. *)
Lemma evolution_steps_midpoint (self : CounterfactualCommunication) :
  1 <= N self ->
  exists before after,
    length before = (Z.to_nat (M self) + Z.to_nat (N self / 2))%nat
    /\ forall bob_blocks,
         evolution_steps self bob_blocks
         = before
           ++ (Ry (2 * theta_N self) :: (if bob_blocks then [X] else []))
           :: after.
Proof.
  intros Hn.
  assert (Hmid : 0 <= N self / 2 < N self).
  { split; [apply Z.div_pos; lia | apply Z.div_lt_upper_bound; lia]. }
  exists (map (fun _ => [Ry (2 * theta_M self)]) (range (M self))
          ++ map (fun _ => [Ry (2 * theta_N self)]) (range (N self / 2))).
  exists (map (fun _ => [Ry (2 * theta_N self)])
              (map (fun i => N self / 2 + 1 + i)
                   (range (N self - N self / 2 - 1)))
          ++ map (fun _ => [Ry (-2 * theta_N self)]) (range (N self))
          ++ map (fun _ => [Ry (-2 * theta_M self)]) (range (M self))).
  split.
  - rewrite List.length_app, !List.length_map, !range_length. reflexivity.
  - intros bob_blocks. unfold evolution_steps.
    rewrite (range_split (N self / 2) (N self)) at 1 by exact Hmid.
    rewrite List.map_app. simpl map.
    rewrite (map_inner_step_off_midpoint _ _ _ (range (N self / 2)))
      by (intros i Hi; apply in_range in Hi; lia).
    rewrite (map_inner_step_off_midpoint _ _ _ (map _ _))
      by (intros i Hi; apply List.in_map_iff in Hi;
          destruct Hi as (k & <- & Hk); apply in_range in Hk; lia).
    unfold inner_step at 1. rewrite Z.eqb_refl. cbn [andb].
    rewrite <- !List.app_assoc. reflexivity.
Qed.

Lemma swap_rstate (phi : R) :
  rstate (PI / 2 - phi) = swap_amplitudes (rstate phi).
Proof.
  unfold rstate, swap_amplitudes. simpl. rewrite cos_shift, sin_shift.
  reflexivity.
Qed.

(** X4: for every object with N >= 1, the pass and the block trajectory
    agree on their first M + N div 2 + 1 entries (everything recorded before
    the midpoint iteration), and the next entry of the block trajectory is
    the pass entry of the same index with its two amplitudes exchanged, so
    P0 and P1 trade places there. *)
Theorem decision_shows_at_midpoint (self : CounterfactualCommunication) :
  1 <= N self ->
  exists states_pass states_block,
    get_state_evolution self false = Ok states_pass
    /\ get_state_evolution self true = Ok states_block
    /\ firstn (Z.to_nat (M self) + Z.to_nat (N self / 2) + 1) states_block
       = firstn (Z.to_nat (M self) + Z.to_nat (N self / 2) + 1) states_pass
    /\ nth (Z.to_nat (M self) + Z.to_nat (N self / 2) + 1) states_block ket0
       = swap_amplitudes
           (nth (Z.to_nat (M self) + Z.to_nat (N self / 2) + 1) states_pass ket0)
    /\ P0 (nth (Z.to_nat (M self) + Z.to_nat (N self / 2) + 1) states_block ket0)
       = P1 (nth (Z.to_nat (M self) + Z.to_nat (N self / 2) + 1) states_pass ket0).
Proof.
  intros Hn.
  destruct (evolution_steps_midpoint self Hn) as (before & after & Hlen & Hsplit).
  do 2 eexists.
  split; [apply get_state_evolution_closed_form|].
  split; [apply get_state_evolution_closed_form|].
  rewrite <- Hlen, Nat.add_1_r, !Hsplit.
  assert (Hnth : nth (Datatypes.S (length before))
                     (ket0 :: map rstate
                        (angles_from (before ++ [Ry (2 * theta_N self); X] :: after) 0))
                     ket0
                 = swap_amplitudes
                     (nth (Datatypes.S (length before))
                        (ket0 :: map rstate
                           (angles_from (before ++ [Ry (2 * theta_N self)] :: after) 0))
                        ket0)).
  { rewrite !nth_trajectory, !angles_from_nth. simpl angle_after.
    apply swap_rstate. }
  split; [|split; [exact Hnth | rewrite Hnth; reflexivity]].
  simpl firstn. f_equal.
  rewrite !List.firstn_map, !angles_from_firstn. reflexivity.
Qed.

Lemma decision_shows_at_midpoint_witness :
  exists self,
    init 2 3 = Ok self
    /\ exists states_pass states_block,
         get_state_evolution self false = Ok states_pass
         /\ get_state_evolution self true = Ok states_block
         /\ firstn (Z.to_nat (M self) + Z.to_nat (N self / 2) + 1) states_block
            = firstn (Z.to_nat (M self) + Z.to_nat (N self / 2) + 1) states_pass
         /\ nth (Z.to_nat (M self) + Z.to_nat (N self / 2) + 1) states_block ket0
            = swap_amplitudes
                (nth (Z.to_nat (M self) + Z.to_nat (N self / 2) + 1)
                     states_pass ket0)
         /\ P0 (nth (Z.to_nat (M self) + Z.to_nat (N self / 2) + 1)
                    states_block ket0)
            = P1 (nth (Z.to_nat (M self) + Z.to_nat (N self / 2) + 1)
                     states_pass ket0).
Proof.
  eexists. split; [apply init_ok; lia|].
  apply decision_shows_at_midpoint. simpl. lia.
Defined.

(** ** The pass trajectory is symmetric *)

Lemma there_and_back_net (steps : list (list instruction)) :
  there_and_back steps ->
  forall phi, angle_after (concat steps) phi = phi.
Proof.
  induction 1 as [|theta steps _ IH]; intros phi; [reflexivity|].
  simpl. rewrite List.concat_app, angle_after_app, IH. simpl. lra.
Qed.

Lemma there_and_back_palindrome (steps : list (list instruction)) :
  there_and_back steps ->
  forall phi, rev (phi :: angles_from steps phi) = phi :: angles_from steps phi.
Proof.
  induction 1 as [|theta steps Hs IH]; intros phi; [reflexivity|].
  cbn [angles_from]. rewrite angles_from_app, there_and_back_net by exact Hs.
  cbn [angles_from angle_after].
  replace (phi + 2 * theta / 2 + -2 * theta / 2)%R with phi by lra.
  change (rev (phi :: ?l)) with (rev l ++ [phi]).
  rewrite List.app_comm_cons, List.rev_app_distr, IH. reflexivity.
Qed.

Lemma there_and_back_repeat (theta : R) (k : nat)
    (steps : list (list instruction)) :
  there_and_back steps ->
  there_and_back (repeat [Ry (2 * theta)] k ++ steps
                  ++ repeat [Ry (-2 * theta)] k).
Proof.
  intros Hs. induction k as [|k IH].
  - simpl. rewrite List.app_nil_r. exact Hs.
  - rewrite (repeat_snoc [Ry (-2 * theta)] k), !List.app_assoc. simpl.
    apply tab_step. rewrite <- List.app_assoc. exact IH.
Qed.

Lemma map_const_range {A : Type} (c : A) (n : Z) :
  map (fun _ : Z => c) (range n) = repeat c (Z.to_nat n).
Proof.
  unfold range. induction (Z.to_nat n) as [|k IH]; [reflexivity|].
  rewrite range_snoc, List.map_app, IH, repeat_snoc. reflexivity.
Qed.

Lemma pass_steps_there_and_back (self : CounterfactualCommunication) :
  there_and_back (evolution_steps self false).
Proof.
  unfold evolution_steps.
  rewrite (List.map_ext (inner_step (2 * theta_N self) (N self / 2) false)
             (fun _ => [Ry (2 * theta_N self)]))
    by (intros i; unfold inner_step; rewrite Bool.andb_false_r; reflexivity).
  rewrite !map_const_range.
  rewrite (List.app_assoc (repeat [Ry (2 * theta_N self)] _)).
  apply there_and_back_repeat.
  apply (there_and_back_repeat (theta_N self) (Z.to_nat (N self)) []).
  constructor.
Qed.

(** X5, over exact real arithmetic (the doubles of the program idealised
    as real numbers, which they follow up to rounding): for every object,
    the pass trajectory read backwards is the same trajectory: the entry of
    index i equals the entry of index (length - 1 - i), the return path
    retracing the forward path state by state. *)
Theorem pass_trajectory_symmetric (self : CounterfactualCommunication) :
  exists states,
    get_state_evolution self false = Ok states
    /\ rev states = states
    /\ forall i, (i < length states)%nat ->
         nth i states ket0 = nth (length states - 1 - i) states ket0.
Proof.
  eexists. split; [apply get_state_evolution_closed_form|].
  assert (Hrev : rev (ket0 :: map rstate
                        (angles_from (evolution_steps self false) 0))
                 = ket0 :: map rstate
                     (angles_from (evolution_steps self false) 0)).
  { rewrite <- rstate_0.
    change (rstate 0 :: map rstate ?l) with (map rstate (0%R :: l)).
    rewrite <- List.map_rev, there_and_back_palindrome
      by apply pass_steps_there_and_back.
    reflexivity. }
  split; [exact Hrev|].
  intros i Hi. rewrite <- Hrev at 1.
  rewrite List.rev_nth by exact Hi. f_equal. lia.
Qed.

(** ** The outcome when Bob blocks *)

(** X6: for M >= 1 and N >= 1, when Bob blocks, the last state of the
    trajectory has amplitudes cos(a) and -sin(a) with
    a = (N div 2 + 1) PI / (2 N), so P0 = cos(a)^2 and P1 = sin(a)^2; the
    state depends on N only, not on M. *)
Theorem block_final_state (m n : Z) :
  1 <= m -> 1 <= n ->
  exists self states,
    init m n = Ok self
    /\ get_state_evolution self true = Ok states
    /\ final states = mkSV (RtoC (cos (midpoint_angle n)))
                           (RtoC (- sin (midpoint_angle n)))
    /\ P0 (final states) = (cos (midpoint_angle n) ^ 2)%R
    /\ P1 (final states) = (sin (midpoint_angle n) ^ 2)%R.
Proof.
  intros Hm Hn.
  destruct (block_final m n Hm Hn) as (states & Hrun & Hfin).
  eexists. exists states. split; [apply init_ok; lia|].
  split; [exact Hrun|].
  rewrite Hfin, P0_rstate, P1_rstate. unfold rstate.
  rewrite cos_neg, sin_neg.
  split; [reflexivity|]. split; simpl; lra.
Qed.

Lemma block_final_state_witness :
  exists self states,
    init 3 5 = Ok self
    /\ get_state_evolution self true = Ok states
    /\ final states = mkSV (RtoC (cos (midpoint_angle 5)))
                           (RtoC (- sin (midpoint_angle 5)))
    /\ P0 (final states) = (cos (midpoint_angle 5) ^ 2)%R
    /\ P1 (final states) = (sin (midpoint_angle 5) ^ 2)%R.
Proof. apply (block_final_state 3 5); lia. Defined.

(** X7, over exact real arithmetic (the doubles of the program idealised
    as real numbers, which they follow up to rounding): for M >= 1 and
    N >= 1, when Bob blocks, basis state 1 is strictly the likelier outcome
    of the last state, P0 < 1/2 < P1. For N = 1 and N = 2 the outcome is
    certain, P0 = 0 and P1 = 1; for N >= 3 it is not, P0 > 0. *)
Theorem block_outcome (m n : Z) :
  1 <= m -> 1 <= n ->
  exists self states,
    init m n = Ok self
    /\ get_state_evolution self true = Ok states
    /\ (P0 (final states) < 1 / 2 < P1 (final states))%R
    /\ (n <= 2 -> P0 (final states) = 0%R /\ P1 (final states) = 1%R)
    /\ (3 <= n -> (0 < P0 (final states))%R).
Proof.
  intros Hm Hn.
  destruct (block_final m n Hm Hn) as (states & Hrun & Hfin).
  eexists. exists states. split; [apply init_ok; lia|].
  split; [exact Hrun|].
  rewrite Hfin, P0_rstate, P1_rstate, cos_neg, sin_neg.
  destruct (midpoint_angle_bounds n Hn) as ([Hlo Hhi] & Hexact & Hstrict).
  set (a := midpoint_angle n) in *.
  pose proof (sin2_cos2 a) as Hsc. unfold Rsqr in Hsc.
  pose proof (cos_2a_cos a) as H2.
  pose proof PI_RGT_0 as Hpi.
  assert (Hneg : (cos (2 * a) < 0)%R) by (apply cos_lt_0; lra).
  split; [split; nra|]. split.
  - intros Hle. rewrite (Hexact Hle), cos_PI2, sin_PI2. lra.
  - intros Hge. specialize (Hstrict Hge).
    assert (Hc : (0 < cos a)%R) by (apply cos_gt_0; lra).
    nra.
Qed.

Lemma block_outcome_witness :
  exists self states,
    init 4 2 = Ok self
    /\ get_state_evolution self true = Ok states
    /\ (P0 (final states) < 1 / 2 < P1 (final states))%R
    /\ (2 <= 2 -> P0 (final states) = 0%R /\ P1 (final states) = 1%R)
    /\ (3 <= 2 -> (0 < P0 (final states))%R).
Proof. apply (block_outcome 4 2); lia. Defined.

(** ** Non-positive cycle counts *)

Lemma range_empty (n : Z) : n <= 0 -> range n = [].
Proof.
  intros Hn. unfold range. replace (Z.to_nat n) with 0%nat by lia. reflexivity.
Qed.


Lemma for_range_m_empty {S : Type} (n : Z) (body : Z -> S -> result S) (s : S) :
  n <= 0 -> for_range_m n body s = Ok s.
Proof. intros Hn. unfold for_range_m. rewrite range_empty by exact Hn. reflexivity. Qed.



(** ** [run_simulation] *)

Lemma evolve_all_skips_barriers (qc : QuantumCircuit) :
  forallb unitary qc = true ->
  forall r, evolve_all qc r = evolve_all (gates qc) r.
Proof.
  induction qc as [|i qc IH]; intros Hu r; [reflexivity|].
  simpl in Hu. apply andb_prop in Hu. destruct Hu as [Hi Hqc].
  destruct i; try discriminate; simpl; try apply (IH Hqc).
  rewrite <- (IH Hqc). f_equal. destruct r; reflexivity.
Qed.

Lemma unitary_app (a b : QuantumCircuit) :
  forallb unitary (a ++ b) = forallb unitary a && forallb unitary b.
Proof. apply List.forallb_app. Qed.

Lemma unitary_loop (n : Z) (body : Z -> QuantumCircuit -> QuantumCircuit)
    (qc0 : QuantumCircuit) :
  (forall k qc, forallb unitary qc = true -> forallb unitary (body k qc) = true) ->
  forallb unitary qc0 = true ->
  forallb unitary (for_range n body qc0) = true.
Proof.
  intros Hbody H0.
  apply (for_range_inv (fun _ qc => forallb unitary qc = true)); [exact H0|].
  intros k qc _ Hqc. apply Hbody. exact Hqc.
Qed.

Lemma create_circuit_unitary (self : CounterfactualCommunication)
    (bob_blocks : bool) :
  forallb unitary (create_circuit self bob_blocks false) = true.
Proof.
  unfold create_circuit. cbv zeta.
  repeat (apply unitary_loop;
          [ intros k qc Hqc;
            repeat match goal with
                   | |- context [if ?c then _ else _] => destruct c
                   end;
            rewrite !unitary_app, Hqc; reflexivity | ]).
  reflexivity.
Qed.

(** The state of the circuit built without measurement is the last state of
    the trajectory. *)
Lemma statevector_is_final (self : CounterfactualCommunication)
    (bob_blocks : bool) :
  exists states,
    get_state_evolution self bob_blocks = Ok states
    /\ from_instruction (create_circuit self bob_blocks false)
       = Ok (final states)
    /\ normalized (final states).
Proof.
  destruct (get_state_evolution_run_ok self bob_blocks)
    as (st & Hrun & Hq & _ & _ & s & Hs & Hn & Hfin).
  exists (snd st). unfold get_state_evolution. rewrite Hrun. simpl.
  split; [reflexivity|]. rewrite Hfin. split; [|exact Hn].
  rewrite <- Hs, Hq, <- (evolution_circuit_gates self bob_blocks false).
  unfold from_instruction.
  apply (evolve_all_skips_barriers _ (create_circuit_unitary self bob_blocks)).
Qed.

(** X9: whenever the simulator returns counts for the measured circuit,
    [run_simulation] returns that circuit (which ends with the measurement),
    those counts, and a state vector equal to the last entry of the
    trajectory of [get_state_evolution] for the same decision; the state
    vector is normalized. When the simulator raises, [run_simulation] raises
    the same exception. The measured circuit itself has no state vector:
    converting it raises. *)
Theorem run_simulation_statevector
    (get_counts : QuantumCircuit -> Z -> result (gmap string Z))
    (self : CounterfactualCommunication) (bob_blocks : bool) (shots : Z) :
  (forall counts,
     get_counts (create_circuit self bob_blocks true) shots = Ok counts ->
     exists states,
       get_state_evolution self bob_blocks = Ok states
       /\ run_simulation get_counts self bob_blocks shots
          = Ok (create_circuit self bob_blocks false ++ [Measure],
                counts, final states)
       /\ normalized (final states))
  /\ (forall e,
        get_counts (create_circuit self bob_blocks true) shots = Raise e ->
        run_simulation get_counts self bob_blocks shots = Raise e)
  /\ from_instruction (create_circuit self bob_blocks true) = Raise QiskitError.
Proof.
  destruct (statevector_is_final self bob_blocks) as (states & Hrun & Hsv & Hn).
  split; [|split].
  - intros counts Hc. exists states. split; [exact Hrun|].
    unfold run_simulation. rewrite Hc. cbn [bind]. rewrite Hsv. cbn [bind].
    split; [reflexivity | exact Hn].
  - intros e He. unfold run_simulation. rewrite He. reflexivity.
  - change (create_circuit self bob_blocks true)
      with (create_circuit self bob_blocks false ++ [Measure]).
    rewrite from_instruction_app, Hsv. reflexivity.
Qed.

Lemma run_simulation_statevector_witness :
  exists self states,
    init 4 4 = Ok self
    /\ get_state_evolution self true = Ok states
    /\ run_simulation (fun _ shots => Ok {[ "1" := shots ]}) self true 1000
       = Ok (create_circuit self true false ++ [Measure],
             {[ "1" := 1000 ]}, final states)
    /\ normalized (final states).
Proof.
  eexists.
  destruct (proj1 (run_simulation_statevector
                     (fun _ shots => Ok {[ "1" := shots ]})
                     (mkCC 4 4 (PI / IZR (4 * 4)) (PI / IZR (4 * 4))
                           ((PI / IZR (16 * 4 * 4)) ^ 2)%R)
                     true 1000) {[ "1" := 1000 ]} eq_refl)
    as (states & Hrun & Hsim & Hn).
  exists states. split; [apply init_ok; lia|].
  split; [exact Hrun|]. split; [exact Hsim | exact Hn].
Defined.

(** ** More on [analyze_results] *)

(** X11: only the entries "0" and "1" of the counts matter. Adding or
    overwriting any other key changes nothing, for every shot count: the
    printed lines and the returned pair are the same, and so is the
    exception when one is raised. After storing a under "0" and b under
    "1", counts that can be printed, the lines show a and b and the
    returned pair is (a, b), for every shot count other than 0 for which
    the two percentages fit a double. *)
Theorem analyze_results_reads_two_keys (counts : gmap string Z)
    (key : string) (v a b shots : Z) :
  key <> "0" -> key <> "1" ->
  analyze_results (<[key := v]> counts) shots = analyze_results counts shots
  /\ (printable a -> printable b -> shots <> 0 ->
      Z.abs (100 * a) < double_overflow_threshold * Z.abs shots ->
      Z.abs (100 * b) < double_overflow_threshold * Z.abs shots ->
      analyze_results (<["0" := a]> (<["1" := b]> counts)) shots
      = Ok ([mkLine D3_H a; mkLine D12_V b], (a, b))).
Proof.
  intros H0 H1. split.
  - unfold analyze_results, dict_get.
    rewrite !lookup_insert_ne by congruence. reflexivity.
  - intros _ _ Hs Ha Hb.
    assert (E0 : dict_get (<["0" := a]> (<["1" := b]> counts)) "0" 0 = a).
    { unfold dict_get. rewrite lookup_insert_eq. reflexivity. }
    assert (E1 : dict_get (<["0" := a]> (<["1" := b]> counts)) "1" 0 = b).
    { unfold dict_get.
      rewrite lookup_insert_ne, lookup_insert_eq by discriminate. reflexivity. }
    rewrite analyze_results_ok; rewrite ?E0, ?E1; try assumption.
    reflexivity.
Qed.

Lemma analyze_results_reads_two_keys_witness :
  analyze_results (<["00" := 5]> {[ "0" := 3 ]}) 10
  = analyze_results {[ "0" := 3 ]} 10
  /\ analyze_results (<["0" := 7]> (<["1" := 3]> {[ "0" := 3 ]})) 10
     = Ok ([mkLine D3_H 7; mkLine D12_V 3], (7, 3)).
Proof.
  destruct (analyze_results_reads_two_keys {[ "0" := 3 ]} "00" 5 7 3 10)
    as [Hsame Hpair]; [discriminate | discriminate |].
  split; [exact Hsame|].
  apply Hpair;
    [vm_compute; reflexivity | vm_compute; reflexivity | lia
     | vm_compute; reflexivity | vm_compute; reflexivity].
Defined.

(** ** More on the constructor *)

(** X12: for M >= 1 and N >= 1 with 16*M*N below 2^53 the constructor
    returns for (M, N), for (N, M) and for (-M, -N), and the three objects
    have the same leakage probability, which is positive and below 0.04. *)
Theorem leakage_symmetric_bounded (m n : Z) :
  1 <= m -> 1 <= n -> 16 * m * n < 2 ^ 53 ->
  exists self swapped negated,
    init_double m n = Ok self
    /\ init_double n m = Ok swapped
    /\ init_double (- m) (- n) = Ok negated
    /\ leakage_prob swapped = leakage_prob self
    /\ leakage_prob negated = leakage_prob self
    /\ (0 < leakage_prob self < 4 / 100)%R.
Proof.
  intros Hm Hn Hlt. do 3 eexists.
  split; [apply init_double_small; nia|].
  split; [apply init_double_small; nia|].
  split; [apply init_double_small; nia|]. cbn [leakage_prob].
  assert (Hmr : (1 <= IZR m)%R) by (apply IZR_le; exact Hm).
  assert (Hnr : (1 <= IZR n)%R) by (apply IZR_le; exact Hn).
  pose proof PI_bounds as [Hlo Hhi].
  split; [do 3 f_equal; lia|]. split; [do 3 f_equal; lia|].
  rewrite !mult_IZR.
  assert (Hx : (16 <= 16 * IZR m * IZR n)%R) by nra.
  set (x := (16 * IZR m * IZR n)%R) in *.
  assert (Hq : (PI / x * x = PI)%R) by (field; lra).
  set (q := (PI / x)%R) in *.
  assert (Hq0 : (0 < q)%R) by nra.
  assert (Hq1 : (q <= PI / 16)%R) by nra.
  split; simpl; nra.
Qed.

Lemma leakage_symmetric_bounded_witness :
  exists self swapped negated,
    init_double 2 8 = Ok self
    /\ init_double 8 2 = Ok swapped
    /\ init_double (- 2) (- 8) = Ok negated
    /\ leakage_prob swapped = leakage_prob self
    /\ leakage_prob negated = leakage_prob self
    /\ (0 < leakage_prob self < 4 / 100)%R.
Proof.
  apply (leakage_symmetric_bounded 2 8); [lia | lia | vm_compute; reflexivity].
Defined.

(** ** The inner forward loop when Bob passes *)

Lemma inner_forward_entry_pass (self : CounterfactualCommunication) (j : Z) :
  1 <= j <= N self ->
  nth (Z.to_nat (M self) + Z.to_nat j)
      (ket0 :: map rstate (angles_from (evolution_steps self false) 0)) ket0
  = rstate (INR (Z.to_nat (M self)) * theta_M self + IZR j * theta_N self).
Proof.
  intros Hj.
  replace (Z.to_nat (M self) + Z.to_nat j)%nat
    with (Datatypes.S (Z.to_nat (M self) + Z.to_nat (j - 1))) by lia.
  rewrite nth_trajectory. f_equal.
  unfold evolution_steps.
  rewrite (List.map_ext (inner_step (2 * theta_N self) (N self / 2) false)
             (fun _ => [Ry (2 * theta_N self)]))
    by (intros i; unfold inner_step; rewrite Bool.andb_false_r; reflexivity).
  rewrite (range_split (j - 1) (N self)) at 1 by lia.
  rewrite List.map_app. simpl map.
  rewrite <- List.app_assoc, List.app_assoc, <- List.app_comm_cons.
  replace (Z.to_nat (M self) + Z.to_nat (j - 1))%nat
    with (length (map (fun _ : Z => [Ry (2 * theta_M self)]) (range (M self))
                  ++ map (fun _ : Z => [Ry (2 * theta_N self)]) (range (j - 1))))
    by (rewrite List.length_app, !List.length_map, !range_length; reflexivity).
  rewrite angles_from_nth, List.concat_app, !concat_map_const.
  rewrite angle_after_app, !angle_after_repeat. simpl angle_after.
  rewrite (INR_to_nat (j - 1)) by lia. rewrite minus_IZR. lra.
Qed.

(** X13, over exact real arithmetic (the doubles of the program idealised
    as real numbers, which they follow up to rounding): for M >= 1 and
    N >= 1, when Bob passes, the entry of index M + j of the trajectory,
    1 <= j <= N, is the real state at angle PI/4 + j PI/(4 N); at the
    turn-around, index M + N, the state is basis state 1: amplitudes 0 and
    1, P0 = 0 and P1 = 1. *)
Theorem pass_turn_around (m n j : Z) :
  1 <= m -> 1 <= n -> 1 <= j <= n ->
  exists self states,
    init m n = Ok self
    /\ get_state_evolution self false = Ok states
    /\ nth (Z.to_nat (m + j)) states ket0
       = rstate (PI / 4 + IZR j * (PI / (4 * IZR n)))
    /\ nth (Z.to_nat (m + n)) states ket0 = mkSV (RtoC 0) (RtoC 1)
    /\ P0 (nth (Z.to_nat (m + n)) states ket0) = 0%R
    /\ P1 (nth (Z.to_nat (m + n)) states ket0) = 1%R.
Proof.
  intros Hm Hn Hj.
  set (self := mkCC m n (PI / IZR (4 * m)) (PI / IZR (4 * n))
                    ((PI / IZR (16 * m * n)) ^ 2)%R).
  exists self. eexists. split; [apply init_ok; lia|].
  split; [apply get_state_evolution_closed_form|].
  assert (Hmr : (1 <= IZR m)%R) by (apply IZR_le; exact Hm).
  assert (Hnr : (1 <= IZR n)%R) by (apply IZR_le; exact Hn).
  assert (Hentry : forall i, 1 <= i <= n ->
            nth (Z.to_nat (m + i))
                (ket0 :: map rstate (angles_from (evolution_steps self false) 0))
                ket0
            = rstate (PI / 4 + IZR i * (PI / (4 * IZR n)))).
  { intros i Hi.
    replace (Z.to_nat (m + i)) with (Z.to_nat (M self) + Z.to_nat i)%nat
      by (simpl; lia).
    rewrite inner_forward_entry_pass by (simpl; lia). f_equal.
    simpl M. simpl theta_M. simpl theta_N.
    rewrite INR_to_nat, !mult_IZR by lia. field. lra. }
  split; [apply Hentry; exact Hj|].
  rewrite (Hentry n) by lia.
  replace (PI / 4 + IZR n * (PI / (4 * IZR n)))%R with (PI / 2)%R
    by (field; lra).
  rewrite P0_rstate, P1_rstate. unfold rstate. rewrite cos_PI2, sin_PI2.
  split; [reflexivity|]. split; lra.
Qed.

Lemma pass_turn_around_witness :
  exists self states,
    init 4 4 = Ok self
    /\ get_state_evolution self false = Ok states
    /\ nth (Z.to_nat (4 + 1)) states ket0
       = rstate (PI / 4 + IZR 1 * (PI / (4 * IZR 4)))
    /\ nth (Z.to_nat (4 + 4)) states ket0 = mkSV (RtoC 0) (RtoC 1)
    /\ P0 (nth (Z.to_nat (4 + 4)) states ket0) = 0%R
    /\ P1 (nth (Z.to_nat (4 + 4)) states ket0) = 1%R.
Proof. apply (pass_turn_around 4 4 1); lia. Defined.

(** ** The layout of the circuit *)

Lemma labels_app (a b : QuantumCircuit) : labels (a ++ b) = labels a ++ labels b.
Proof. unfold labels. apply List.flat_map_app. Qed.

Lemma labels_loop (n : Z) (body : Z -> QuantumCircuit -> QuantumCircuit)
    (lbl : Z -> label) (qc0 : QuantumCircuit) :
  (forall k qc, labels (body k qc) = labels qc ++ [lbl k]) ->
  labels (for_range n body qc0) = labels qc0 ++ map lbl (range n).
Proof.
  intros Hbody. rewrite <- (range_max n).
  apply (for_range_inv
           (fun k qc => labels qc = labels qc0 ++ map lbl (range k))).
  - simpl. rewrite List.app_nil_r. reflexivity.
  - intros k qc Hk IH.
    rewrite Hbody, IH, range_succ, List.map_app, <- List.app_assoc by lia.
    reflexivity.
Qed.

Lemma length_by_kind (qc : QuantumCircuit) :
  forallb unitary qc = true ->
  length qc = (length (gates qc) + length (labels qc))%nat.
Proof.
  induction qc as [|i qc IH]; intros Hu; [reflexivity|].
  simpl in Hu. apply andb_prop in Hu. destruct Hu as [Hi Hqc].
  specialize (IH Hqc). unfold gates, labels, QuantumCircuit in *.
  destruct i; try discriminate; simpl; lia.
Qed.

Lemma create_circuit_labels (self : CounterfactualCommunication)
    (bob_blocks measure : bool) :
  labels (create_circuit self bob_blocks measure)
  = map (fun cycle => Outer (cycle + 1)) (range (M self))
    ++ map (inner_label (N self / 2) bob_blocks) (range (N self))
    ++ map (fun cycle => RetInner (cycle + 1)) (range (N self))
    ++ map (fun cycle => RetOuter (cycle + 1)) (range (M self)).
Proof.
  unfold create_circuit. cbv zeta.
  assert (Hm : forall qc, labels (if measure then qc ++ [Measure] else qc) = labels qc).
  { intros qc. destruct measure; [|reflexivity].
    rewrite labels_app. apply List.app_nil_r. }
  rewrite Hm.
  rewrite (labels_loop (M self) _ (fun cycle => RetOuter (cycle + 1)))
    by (intros; rewrite !labels_app; simpl; rewrite List.app_nil_r; reflexivity).
  rewrite (labels_loop (N self) _ (fun cycle => RetInner (cycle + 1)))
    by (intros; rewrite !labels_app; simpl; rewrite List.app_nil_r; reflexivity).
  rewrite (labels_loop (N self) _ (inner_label (N self / 2) bob_blocks))
    by (intros k qc; unfold inner_label;
        destruct (k =? N self / 2); destruct bob_blocks;
        rewrite !labels_app; simpl; rewrite ?List.app_nil_r; reflexivity).
  rewrite (labels_loop (M self) _ (fun cycle => Outer (cycle + 1)))
    by (intros; rewrite !labels_app; simpl; rewrite List.app_nil_r; reflexivity).
  simpl (labels []). simpl app at 1.
  rewrite <- !List.app_assoc. reflexivity.
Qed.

Lemma range_in (i n : Z) : 0 <= i < n -> In i (range n).
Proof.
  intros Hi. unfold range. apply List.in_map_iff.
  exists (Z.to_nat i). split; [lia | apply List.in_seq; lia].
Qed.

(** X14: the barriers of the circuit are labelled, in order, Outer1..OuterM,
    then Inner1..InnerN with the label of iteration N div 2 replaced by
    Bob's label, then RetInner1..RetInnerN and RetOuter1..RetOuterM. For
    N >= 1 Bob's label for the decision taken is present, the label of the
    other decision and the label Inner(N div 2 + 1) never are, and the
    circuit has 4 max(0, M) + 4 N instructions, plus one when Bob blocks and
    one when it is measured. *)
Theorem circuit_layout (self : CounterfactualCommunication)
    (bob_blocks measure : bool) :
  1 <= N self ->
  labels (create_circuit self bob_blocks measure)
  = map (fun cycle => Outer (cycle + 1)) (range (M self))
    ++ map (inner_label (N self / 2) bob_blocks) (range (N self))
    ++ map (fun cycle => RetInner (cycle + 1)) (range (N self))
    ++ map (fun cycle => RetOuter (cycle + 1)) (range (M self))
  /\ In (if bob_blocks then Bob_BLOCKS else Bob_PASS)
        (labels (create_circuit self bob_blocks measure))
  /\ ~ In (if bob_blocks then Bob_PASS else Bob_BLOCKS)
          (labels (create_circuit self bob_blocks measure))
  /\ ~ In (Inner (N self / 2 + 1))
          (labels (create_circuit self bob_blocks measure))
  /\ Z.of_nat (length (create_circuit self bob_blocks measure))
     = 4 * Z.max 0 (M self) + 4 * N self
       + (if bob_blocks then 1 else 0) + (if measure then 1 else 0).
Proof.
  intros Hn.
  assert (Hmid : 0 <= N self / 2 < N self).
  { split; [apply Z.div_pos; lia | apply Z.div_lt_upper_bound; lia]. }
  rewrite create_circuit_labels.
  split; [reflexivity|]. split; [|split; [|split]].
  - apply List.in_or_app. right. apply List.in_or_app. left.
    apply List.in_map_iff. exists (N self / 2).
    split; [|apply range_in; exact Hmid].
    unfold inner_label. rewrite Z.eqb_refl. reflexivity.
  - intros Hin.
    repeat (apply List.in_app_or in Hin; destruct Hin as [Hin | Hin]);
      apply List.in_map_iff in Hin; destruct Hin as (c & Hc & _);
      unfold inner_label in Hc;
      try destruct (c =? N self / 2); destruct bob_blocks; discriminate.
  - intros Hin.
    repeat (apply List.in_app_or in Hin; destruct Hin as [Hin | Hin]);
      apply List.in_map_iff in Hin; destruct Hin as (c & Hc & _);
      try discriminate.
    unfold inner_label in Hc.
    destruct (Z.eqb_spec c (N self / 2)) as [_ | Hne];
      [destruct bob_blocks; discriminate|].
    injection Hc as Hc. lia.
  - assert (Hlen : length (create_circuit self bob_blocks measure)
                   = (length (create_circuit self bob_blocks false)
                      + (if measure then 1 else 0))%nat).
    { unfold create_circuit. cbv zeta. destruct measure.
      - rewrite List.length_app. reflexivity.
      - lia. }
    rewrite Hlen, length_by_kind by apply create_circuit_unitary.
    rewrite evolution_circuit_gates, evolution_circuit_length by exact Hn.
    rewrite create_circuit_labels.
    rewrite !List.length_app, !List.length_map, !range_length.
    destruct bob_blocks, measure; lia.
Qed.

Lemma circuit_layout_witness :
  exists self,
    init 2 5 = Ok self
    /\ labels (create_circuit self true true)
       = [Outer 1; Outer 2;
          Inner 1; Inner 2; Bob_BLOCKS; Inner 4; Inner 5;
          RetInner 1; RetInner 2; RetInner 3; RetInner 4; RetInner 5;
          RetOuter 1; RetOuter 2]
    /\ Z.of_nat (length (create_circuit self true true)) = 30.
Proof.
  eexists. split; [apply init_ok; lia|].
  match goal with
  | |- context [create_circuit ?s true true] =>
      destruct (circuit_layout s true true) as (Hl & _ & _ & _ & Hlen);
      [simpl; lia|]
  end.
  split; [rewrite Hl; reflexivity | rewrite Hlen; reflexivity].
Defined.

(** ** The two builders agree *)

(** X15: for every object and either decision, the circuit that
    [get_state_evolution] builds gate by gate ends as exactly the gates of
    the circuit [create_circuit] builds for the same decision, in the same
    order, barriers and measurement aside. *)
Theorem builders_agree (self : CounterfactualCommunication)
    (bob_blocks measure : bool) :
  exists st,
    get_state_evolution_run self bob_blocks = Ok st
    /\ fst st = gates (create_circuit self bob_blocks measure)
    /\ get_state_evolution self bob_blocks = Ok (snd st).
Proof.
  destruct (get_state_evolution_run_ok self bob_blocks) as (st & Hrun & Hq & _).
  exists st. split; [exact Hrun|].
  split; [rewrite evolution_circuit_gates; exact Hq|].
  unfold get_state_evolution. rewrite Hrun. reflexivity.
Qed.
